(** * Hooks of the component library: [useKeyboard] and [usePosition]

    A shallow embedding of [src/hooks/useKeyboard.ts] (which holds both
    hooks) together with the small part of the React and DOM runtime the
    hooks rest on:

    - a JavaScript [number] is an IEEE 754 binary64 value, so the geometry
      read by [usePosition] is modelled with primitive floats;
    - a [RefObject] is a mutable cell with an identity; the heap of all
      cells is a finite map from the identity to the [current] node
      (an absent key is [current = null]);
    - a function object has an identity too: every evaluation of an arrow
      function allocates a fresh one, [useCallback] hands back the memoised
      one while its dependency list is unchanged;
    - [useEffect] compares its dependency list with that of the previous
      render ([Object.is] per entry) and, when one entry differs, runs the
      stored cleanup and then the effect body again;
    - the listener table of the DOM is a list of registrations in
      insertion order; [addEventListener] ignores a registration that is
      already present, [removeEventListener] removes the matching one. *)

From Stdlib Require Import ZArith Floats.PrimFloat Floats.SpecFloat Floats.FloatOps Floats.FloatAxioms.
From stdpp Require Import base decidable numbers option list gmap strings.

(** ** Objects shared by the two hooks *)

Module Dom.

(** Identity of an [HTMLElement]. *)
Definition NodeId : Type := nat.

(** Identity of a [RefObject<HTMLElement>]. *)
Definition RefId : Type := nat.

(** What [addEventListener] can be called on here: [document] or an element. *)
Inductive EventTarget : Type :=
| document
| element (n : NodeId).

#[global] Instance EventTarget_eq_dec : EqDecision EventTarget.
Proof. solve_decision. Defined.

(** [ref.current] *)
Definition current (refs : gmap RefId NodeId) (r : RefId) : option NodeId :=
  refs !! r.

End Dom.

(** ** [usePosition] *)

Module Position.
Import Dom.

Inductive TSide : Type := top | bottom.
Inductive TAlign : Type := left | right.
Definition TPosition : Type := TAlign * TSide.

#[global] Instance TSide_eq_dec : EqDecision TSide.
Proof. solve_decision. Defined.
#[global] Instance TAlign_eq_dec : EqDecision TAlign.
Proof. solve_decision. Defined.

(** The four fields of the [DOMRect] that the hook reads. *)
Record DOMRect : Type := mkRect {
  rect_right : float;
  rect_bottom : float;
  rect_width : float;
  rect_height : float
}.

(** [window.innerWidth] and [window.innerHeight]. *)
Record Window : Type := mkWindow {
  innerWidth : float;
  innerHeight : float
}.

(** The browser state the hook can observe. *)
Record World : Type := mkWorld {
  refs : gmap RefId NodeId;
  getBoundingClientRect : NodeId -> DOMRect;
  window : Window
}.

(** The body of the [if (ref.current)] block, lines 115-133: the two
    [let] variables start at ["right"] and ["bottom"] and each is
    overwritten by at most one assignment. *)
Definition measure (popup : DOMRect) (win : Window) : TPosition :=
  let align := right in
  let side := bottom in
  let spaceOnRight := PrimFloat.sub (innerWidth win) (rect_right popup) in
  let spaceOnBottom := PrimFloat.sub (innerHeight win) (rect_bottom popup) in
  let align := if PrimFloat.leb spaceOnRight (rect_width popup) then left else align in
  let side := if PrimFloat.leb spaceOnBottom (rect_height popup) then top else side in
  (align, side).

(** What one run of the effect body saw. *)
Inductive Pass : Type :=
| measured (n : NodeId) (p : TPosition)
| skipped.

(** The hook's cells in the component instance, with two ghost fields:
    [returned] lists what the hook returned at each render (oldest first),
    [passes] lists the runs of the effect body (oldest first). *)
Record Fiber : Type := mkFiber {
  position : TPosition;
  dep_ref : RefId;
  returned : list TPosition;
  passes : list Pass
}.

(** The value of [useState]'s initial argument. *)
Definition initial_position : TPosition := (right, bottom).

(** One render: the hook returns the state cell. *)
Definition render (f : Fiber) : Fiber :=
  {| position := position f; dep_ref := dep_ref f;
     returned := returned f ++ [position f]; passes := passes f |}.

(** The effect body, lines 114-134. [setPosition] receives a fresh array,
    so the state changes identity and the component renders once more;
    in that render the dependency list [[ref]] is unchanged and the effect
    does not run again. *)
Definition effect (r : RefId) (w : World) (f : Fiber) : Fiber :=
  match current (refs w) r with
  | Some node =>
      let popup := getBoundingClientRect w node in
      let p := measure popup (window w) in
      render {| position := p; dep_ref := dep_ref f;
                returned := returned f;
                passes := passes f ++ [measured node p] |}
  | None =>
      {| position := position f; dep_ref := dep_ref f;
         returned := returned f; passes := passes f ++ [skipped] |}
  end.

(** Lines 110-138: one call of the hook followed by the commit of its
    effect. [prev] is [None] at mount and the cells of the previous render
    afterwards. [useState] yields the initial position at mount and the
    state cell later; the hook returns it; the effect, with dependency
    list [[ref]], runs at mount and when [ref] is not the ref object of
    the previous render. *)
Definition usePosition (ref : RefId) (prev : option Fiber) (w : World) : Fiber :=
  match prev with
  | None =>
      effect ref w
        (render {| position := initial_position; dep_ref := ref;
                   returned := []; passes := [] |})
  | Some f =>
      let f1 := render f in
      if decide (ref = dep_ref f) then f1
      else effect ref w {| position := position f1; dep_ref := ref;
                           returned := returned f1; passes := passes f1 |}
  end.

Definition mount (r : RefId) (w : World) : Fiber := usePosition r None w.

Definition update (r : RefId) (w : World) (f : Fiber) : Fiber :=
  usePosition r (Some f) w.

(** What can happen to a mounted instance. *)
Inductive Action : Type :=
| rerender (r : RefId)
| set_current (r : RefId) (n : option NodeId)
| resize (win : Window)
| scroll (layout : NodeId -> DOMRect).

Definition set_ref (r : RefId) (n : option NodeId) (refs : gmap RefId NodeId)
  : gmap RefId NodeId :=
  match n with
  | Some node => <[r := node]> refs
  | None => delete r refs
  end.

Definition step (a : Action) (s : Fiber * World) : Fiber * World :=
  let '(f, w) := s in
  match a with
  | rerender r => (update r w f, w)
  | set_current r n =>
      (f, {| refs := set_ref r n (refs w);
             getBoundingClientRect := getBoundingClientRect w;
             window := window w |})
  | resize win =>
      (f, {| refs := refs w;
             getBoundingClientRect := getBoundingClientRect w;
             window := win |})
  | scroll layout =>
      (f, {| refs := refs w;
             getBoundingClientRect := layout;
             window := window w |})
  end.

Definition run (r : RefId) (w : World) (acts : list Action) : Fiber * World :=
  foldl (fun s a => step a s) (mount r w, w) acts.

(** The placement rule in the words of the specification. *)
Definition spec_alignment (popup : DOMRect) (win : Window) : TAlign :=
  if PrimFloat.leb (PrimFloat.sub (innerWidth win) (rect_right popup)) (rect_width popup)
  then left else right.

Definition spec_side (popup : DOMRect) (win : Window) : TSide :=
  if PrimFloat.leb (PrimFloat.sub (innerHeight win) (rect_bottom popup)) (rect_height popup)
  then top else bottom.



(** The world of property 5 of the specification: ref object 0 holds
    node 1, whose box is the one given there. *)
Definition world5 : World :=
  {| refs := {[ 0 := 1 ]};
     getBoundingClientRect := fun _ => mkRect 700 500 200 100;
     window := mkWindow 800 600 |}.


(** A world in which no ref cell holds a node. *)
Definition world_empty : World :=
  {| refs := ∅;
     getBoundingClientRect := fun _ => mkRect 700 500 200 100;
     window := mkWindow 800 600 |}.


(** The position of the most recent pass that found a node. *)
Fixpoint last_measured (ps : list Pass) (acc : option TPosition) : option TPosition :=
  match ps with
  | [] => acc
  | measured _ p :: ps => last_measured ps (Some p)
  | skipped :: ps => last_measured ps acc
  end.

End Position.

(** ** [useKeyboard] *)

Module Keyboard.
Import Dom.

Inductive TKeyboardEvent : Type := keydown | keypress | keyup.

Inductive TKeyboardKey : Type :=
| Enter | Space | Escape | ArrowUp | ArrowDown | ArrowLeft | ArrowRight.

#[global] Instance TKeyboardEvent_eq_dec : EqDecision TKeyboardEvent.
Proof. solve_decision. Defined.
#[global] Instance TKeyboardKey_eq_dec : EqDecision TKeyboardKey.
Proof. solve_decision. Defined.

(** The string each member of the union type stands for. *)
Definition key_string (k : TKeyboardKey) : string :=
  match k with
  | Enter => "Enter"
  | Space => "Space"
  | Escape => "Escape"
  | ArrowUp => "ArrowUp"
  | ArrowDown => "ArrowDown"
  | ArrowLeft => "ArrowLeft"
  | ArrowRight => "ArrowRight"
  end.

(** Identity of a [TKeyboardListener] supplied by the caller. The model
    records that it was called and with what; its own effects are the
    caller's. *)
Definition ListenerId : Type := nat.

(** Identity of a function object created by the hook. *)
Definition FnId : Type := nat.

Record IKeyboardOptions : Type := mkOptions {
  event : option TKeyboardEvent;
  preventDefault : option bool;
  ref : option RefId
}.

(** A keyboard event: its type, its [key] field, whether it is
    cancelable and the default-prevented flag. The key events a browser
    dispatches are cancelable; one built with [new KeyboardEvent(type,
    {key})] is not unless [cancelable: true] is passed. *)
Record KeyboardEvent : Type := mkEvent {
  type : TKeyboardEvent;
  key : string;
  cancelable : bool;
  defaultPrevented : bool
}.

(** [e.preventDefault()]: the flag is set when the event is cancelable and
    left as it is otherwise. Line 83 registers the handler without
    options, so the listener is not passive. *)
Definition KeyboardEvent_preventDefault (e : KeyboardEvent) : KeyboardEvent :=
  {| type := type e; key := key e; cancelable := cancelable e;
     defaultPrevented := if cancelable e then true else defaultPrevented e |}.

(** One invocation of a caller's listener, with the event as the
    listener receives it. *)
Inductive Call : Type :=
| called (l : ListenerId) (e : KeyboardEvent).

(** The arrow function of lines 70-75 as a function object: its identity
    and the three variables of the enclosing render it closes over. *)
Record Closure : Type := mkClosure {
  fn_id : FnId;
  cap_key : TKeyboardKey;
  cap_preventDefault : bool;
  cap_listener : ListenerId
}.

(** Lines 70-75. *)
Definition eventHandler (h : Closure) (e : KeyboardEvent) : KeyboardEvent * list Call :=
  if String.eqb (key e) (key_string (cap_key h)) then
    let e := if cap_preventDefault h then KeyboardEvent_preventDefault e else e in
    (e, [called (cap_listener h) e])
  else (e, []).

(** An entry of the DOM's listener table. *)
Record Registration : Type := mkReg {
  reg_target : EventTarget;
  reg_type : TKeyboardEvent;
  reg_handler : Closure
}.

(** The calls the hook makes on the DOM, with the function passed given by
    its identity. *)
Inductive DomCall : Type :=
| call_add (t : EventTarget) (ty : TKeyboardEvent) (fn : FnId)
| call_remove (t : EventTarget) (ty : TKeyboardEvent) (fn : FnId).

#[global] Instance DomCall_eq_dec : EqDecision DomCall.
Proof. solve_decision. Defined.

(** The browser state: the ref cells, the listener table, the next unused
    function identity and (ghost) the DOM calls made so far, oldest first. *)
Record World : Type := mkWorld {
  refs : gmap RefId NodeId;
  listeners : list Registration;
  next_fn : FnId;
  dom_calls : list DomCall
}.

(** Two registrations are the same listener when target, type and
    callback identity agree. *)
Definition same_listener (t : EventTarget) (ty : TKeyboardEvent) (fn : FnId)
    (r : Registration) : bool :=
  bool_decide (reg_target r = t) && bool_decide (reg_type r = ty)
  && bool_decide (fn_id (reg_handler r) = fn).

Definition addEventListener (t : EventTarget) (ty : TKeyboardEvent) (h : Closure)
    (w : World) : World :=
  {| refs := refs w;
     listeners :=
       if existsb (same_listener t ty (fn_id h)) (listeners w)
       then listeners w
       else listeners w ++ [mkReg t ty h];
     next_fn := next_fn w;
     dom_calls := dom_calls w ++ [call_add t ty (fn_id h)] |}.

Definition removeEventListener (t : EventTarget) (ty : TKeyboardEvent) (h : Closure)
    (w : World) : World :=
  {| refs := refs w;
     listeners :=
       List.filter (fun r => negb (same_listener t ty (fn_id h) r)) (listeners w);
     next_fn := next_fn w;
     dom_calls := dom_calls w ++ [call_remove t ty (fn_id h)] |}.

(** The hook's cells in the component instance: the [useCallback] cell
    (function and dependency list [[key]]) and the [useEffect] cell
    (dependency list [[event, eventHandler, ref]] and the cleanup closure
    with the three variables it closes over). *)
Record Fiber : Type := mkFiber {
  memo_fn : Closure;
  memo_deps : TKeyboardKey;
  effect_deps : TKeyboardEvent * FnId * option RefId;
  cleanup : EventTarget * TKeyboardEvent * Closure
}.

(** Line 67: the destructuring defaults. *)
Definition resolve_options (options : option IKeyboardOptions)
  : TKeyboardEvent * bool * option RefId :=
  let o := default (mkOptions None None None) options in
  (default keydown (event o), default true (preventDefault o), ref o).

(** [React.useCallback(fn, [key])]. *)
Definition useCallback (fn : Closure) (deps : TKeyboardKey)
    (cell : option (Closure * TKeyboardKey)) : Closure * TKeyboardKey :=
  match cell with
  | None => (fn, deps)
  | Some (fn0, deps0) => if decide (deps = deps0) then (fn0, deps0) else (fn, deps)
  end.

(** Line 81: [ref?.current || document]. *)
Definition resolve_target (ref : option RefId) (w : World) : EventTarget :=
  match ref with
  | Some r =>
      match current (refs w) r with
      | Some node => element node
      | None => document
      end
  | None => document
  end.

(** Lines 81-87: the effect body; it returns the cleanup closure. *)
Definition effect (event : TKeyboardEvent) (eventHandler : Closure) (ref : option RefId)
    (w : World) : (EventTarget * TKeyboardEvent * Closure) * World :=
  let target := resolve_target ref w in
  let w := addEventListener target event eventHandler w in
  ((target, event, eventHandler), w).

(** Line 86: the cleanup closure, applied. *)
Definition run_cleanup (c : EventTarget * TKeyboardEvent * Closure) (w : World) : World :=
  let '(target, event, eventHandler) := c in
  removeEventListener target event eventHandler w.

Definition alloc_fn (w : World) : World :=
  {| refs := refs w; listeners := listeners w;
     next_fn := S (next_fn w); dom_calls := dom_calls w |}.

(** Lines 64-89: one render of the hook followed by the commit of its
    effect. [prev] is [None] at mount and the cells of the previous render
    afterwards. *)
Definition useKeyboard (k : TKeyboardKey) (listener : ListenerId)
    (options : option IKeyboardOptions) (prev : option Fiber) (w : World)
  : Fiber * World :=
  let '(event, preventDefault, ref) := resolve_options options in
  let fn := mkClosure (next_fn w) k preventDefault listener in
  let w := alloc_fn w in
  let '(eventHandler, kdeps) :=
    useCallback fn k (option_map (fun f => (memo_fn f, memo_deps f)) prev) in
  let deps := (event, fn_id eventHandler, ref) in
  match prev with
  | None =>
      let '(c, w) := effect event eventHandler ref w in
      (mkFiber eventHandler kdeps deps c, w)
  | Some f =>
      if decide (deps = effect_deps f)
      then (mkFiber eventHandler kdeps (effect_deps f) (cleanup f), w)
      else
        let w := run_cleanup (cleanup f) w in
        let '(c, w) := effect event eventHandler ref w in
        (mkFiber eventHandler kdeps deps c, w)
  end.

Record Props : Type := mkProps {
  p_key : TKeyboardKey;
  p_listener : ListenerId;
  p_options : option IKeyboardOptions
}.

Definition mount (p : Props) (w : World) : Fiber * World :=
  useKeyboard (p_key p) (p_listener p) (p_options p) None w.

Definition update (p : Props) (f : Fiber) (w : World) : Fiber * World :=
  useKeyboard (p_key p) (p_listener p) (p_options p) (Some f) w.

Definition unmount (f : Fiber) (w : World) : World :=
  run_cleanup (cleanup f) w.

(** What can happen to a mounted instance: a render with new arguments,
    or a ref cell written by the host framework or the caller. *)
Inductive Action : Type :=
| rerender (p : Props)
| set_current (r : RefId) (n : option NodeId).

Definition set_ref (r : RefId) (n : option NodeId) (w : World) : World :=
  {| refs := match n with
             | Some node => <[r := node]> (refs w)
             | None => delete r (refs w)
             end;
     listeners := listeners w; next_fn := next_fn w; dom_calls := dom_calls w |}.

Definition step (a : Action) (s : Fiber * World) : Fiber * World :=
  let '(f, w) := s in
  match a with
  | rerender p => update p f w
  | set_current r n => (f, set_ref r n w)
  end.

Definition run (p : Props) (w : World) (acts : list Action) : Fiber * World :=
  foldl (fun s a => step a s) (mount p w) acts.

(** The arguments of the most recent render. *)
Definition next_props (p : Props) (a : Action) : Props :=
  match a with
  | rerender q => q
  | set_current _ _ => p
  end.

Definition last_props (p : Props) (acts : list Action) : Props :=
  foldl next_props p acts.

(** The arguments of the most recent render at which [key] differed from
    the render before it (the mount, when there is none). *)
Definition next_capture (c : Props) (a : Action) : Props :=
  match a with
  | rerender q => if decide (p_key q = p_key c) then c else q
  | set_current _ _ => c
  end.

Definition capture_props (p : Props) (acts : list Action) : Props :=
  foldl next_capture p acts.

Definition event_of (p : Props) : TKeyboardEvent := (resolve_options (p_options p)).1.1.
Definition preventDefault_of (p : Props) : bool := (resolve_options (p_options p)).1.2.
Definition ref_of (p : Props) : option RefId := (resolve_options (p_options p)).2.

(** Event delivery on one target: the listeners registered there for the
    event's type run in registration order on the one event object. *)
Fixpoint deliver (rs : list Registration) (t : EventTarget) (e : KeyboardEvent)
  : KeyboardEvent * list Call :=
  match rs with
  | [] => (e, [])
  | r :: rs =>
      if bool_decide (reg_target r = t) && bool_decide (reg_type r = type e) then
        let '(e1, c1) := eventHandler (reg_handler r) e in
        let '(e2, c2) := deliver rs t e1 in
        (e2, c1 ++ c2)
      else deliver rs t e
  end.

(** [dispatchEvent]: the event visits the targets of its propagation path
    in order. *)
Fixpoint dispatchEvent (rs : list Registration) (path : list EventTarget)
    (e : KeyboardEvent) : KeyboardEvent * list Call :=
  match path with
  | [] => (e, [])
  | t :: path =>
      let '(e1, c1) := deliver rs t e in
      let '(e2, c2) := dispatchEvent rs path e1 in
      (e2, c1 ++ c2)
  end.

(** A log of DOM calls in which every [addEventListener] is followed at
    once by the [removeEventListener] with the same three arguments. *)
Fixpoint paired (l : list DomCall) : bool :=
  match l with
  | [] => true
  | call_add t ty fn :: call_remove t' ty' fn' :: l =>
      bool_decide (t = t') && bool_decide (ty = ty') && bool_decide (fn = fn')
      && paired l
  | _ => false
  end.

(** Function identities handed out so far are below [next_fn]. *)
Definition fresh_ids (w : World) : Prop :=
  Forall (fun r => fn_id (reg_handler r) < next_fn w) (listeners w).

(** Whether a render with arguments [p] differs from one with [q] in
    [key], [event] or [ref]. *)
Definition rebinds (q p : Props) : bool :=
  negb (bool_decide (p_key p = p_key q))
  || negb (bool_decide (event_of p = event_of q))
  || negb (bool_decide (ref_of p = ref_of q)).

(** The cells of a mounted instance after a render with arguments [p],
    when the memoised function was created at a render with arguments [c]:
    the cleanup closure holds the memoised function, the event of [p] and
    some target; the DOM calls since [log0] are pairs of an install and
    its removal, followed by the install of the live subscription. *)
Definition bound (log0 : list DomCall) (p c : Props) (s : Fiber * World) : Prop :=
  exists target done,
    cleanup s.1 = (target, event_of p, memo_fn s.1)
    /\ effect_deps s.1 = (event_of p, fn_id (memo_fn s.1), ref_of p)
    /\ memo_deps s.1 = p_key p
    /\ p_key c = p_key p
    /\ memo_fn s.1 =
         mkClosure (fn_id (memo_fn s.1)) (p_key c) (preventDefault_of c) (p_listener c)
    /\ fn_id (memo_fn s.1) < next_fn s.2
    /\ paired done = true
    /\ dom_calls s.2 =
         log0 ++ done ++ [call_add target (event_of p) (fn_id (memo_fn s.1))].

(** The listener table of a mounted instance: what was there before the
    mount, then the one live subscription. *)
Definition subscribed (base : list Registration) (s : Fiber * World) : Prop :=
  Forall (fun r => fn_id (reg_handler r) < fn_id (memo_fn s.1)) base
  /\ listeners s.2 = base ++ [mkReg (cleanup s.1).1.1 (cleanup s.1).1.2 (cleanup s.1).2].

(** The function [useCallback] hands back at a render with arguments [q]
    after one with arguments [p]. *)
Definition handler_after (p q : Props) (f : Fiber) (w : World) : Closure :=
  if decide (p_key q = p_key p) then memo_fn f
  else mkClosure (next_fn w) (p_key q) (preventDefault_of q) (p_listener q).

(** Whether an action only writes a ref cell (no render happens). *)
Definition is_set_current (a : Action) : bool :=
  match a with
  | set_current _ _ => true
  | rerender _ => false
  end.

(** Example arguments and worlds. *)
Definition props_enter (l : ListenerId) : Props := mkProps Enter l None.
Definition props_escape (l : ListenerId) : Props := mkProps Escape l None.
Definition props_ref (l : ListenerId) (r : RefId) : Props :=
  mkProps Enter l (Some (mkOptions (Some keyup) (Some false) (Some r))).

Definition world0 : World :=
  {| refs := ∅; listeners := []; next_fn := 0; dom_calls := [] |}.

Definition world_ref : World :=
  {| refs := {[ 7 := 1 ]}; listeners := []; next_fn := 0; dom_calls := [] |}.

Definition enter_down : KeyboardEvent := mkEvent keydown "Enter" true false.
Definition tab_down : KeyboardEvent := mkEvent keydown "Tab" true false.

(** [new KeyboardEvent("keydown", {key: "Enter"})]: not cancelable. *)
Definition enter_synthetic : KeyboardEvent := mkEvent keydown "Enter" false false.

(** Options that set [preventDefault] only. *)
Definition props_no_prevent (l : ListenerId) : Props :=
  mkProps Enter l (Some (mkOptions None (Some false) None)).

(** Whether an action leaves [key], [event] and the ref object of the
    render with arguments [p] as they are: a ref cell write, or a render
    that passes the same three. *)
Definition quiet (p : Props) (a : Action) : bool :=
  match a with
  | rerender q => negb (rebinds p q)
  | set_current _ _ => true
  end.

(** The options object a caller would pass to spell every default out,
    read off the parameter list of the hook and the [@default] tags of
    [IKeyboardOptions]: a missing [event] is ["keydown"], a missing
    [preventDefault] is [true], a missing [ref] stays missing. *)
Definition explicit_options (options : option IKeyboardOptions) : IKeyboardOptions :=
  match options with
  | None => mkOptions (Some keydown) (Some true) None
  | Some o =>
      mkOptions
        (Some (match event o with Some ev => ev | None => keydown end))
        (Some (match preventDefault o with Some b => b | None => true end))
        (ref o)
  end.

Definition explicit_props (p : Props) : Props :=
  mkProps (p_key p) (p_listener p) (Some (explicit_options (p_options p))).

Definition explicit_action (a : Action) : Action :=
  match a with
  | rerender q => rerender (explicit_props q)
  | set_current r n => set_current r n
  end.

(** The event as a matching handler leaves it. *)
Definition fired (h : Closure) (e : KeyboardEvent) : KeyboardEvent :=
  if cap_preventDefault h then KeyboardEvent_preventDefault e else e.

(** The event a call passed to the listener. *)
Definition call_event (c : Call) : KeyboardEvent :=
  match c with called _ e => e end.

End Keyboard.

(** * Properties of [usePosition] *)

Module PositionFacts.
Import Dom Position.

Lemma measure_rule (popup : DOMRect) (win : Window) :
  measure popup win = (spec_alignment popup win, spec_side popup win).
Proof.
  unfold measure, spec_alignment, spec_side.
  destruct (PrimFloat.leb (PrimFloat.sub (innerWidth win) (rect_right popup)) _);
    destruct (PrimFloat.leb (PrimFloat.sub (innerHeight win) (rect_bottom popup)) _);
    reflexivity.
Qed.

Lemma effect_present (r : RefId) (w : World) (f : Fiber) (node : NodeId) :
  current (refs w) r = Some node ->
  effect r w f =
    render {| position := measure (getBoundingClientRect w node) (window w);
              dep_ref := dep_ref f; returned := returned f;
              passes := passes f ++
                [measured node (measure (getBoundingClientRect w node) (window w))] |}.
Proof. intros H. unfold effect. rewrite H. reflexivity. Qed.

Lemma effect_absent (r : RefId) (w : World) (f : Fiber) :
  current (refs w) r = None ->
  effect r w f =
    {| position := position f; dep_ref := dep_ref f;
       returned := returned f; passes := passes f ++ [skipped] |}.
Proof. intros H. unfold effect. rewrite H. reflexivity. Qed.


(** C1. The measurement pass publishes alignment [left] when
    [innerWidth - box.right <= box.width] and [right] otherwise, and side
    [top] when [innerHeight - box.bottom <= box.height] and [bottom]
    otherwise; this is what the effect stores whenever the node is there.
    For the box with right 700, bottom 500, width 200, height 100 in the
    800 by 600 viewport the result is [(left, top)]. *)
Theorem measurement_follows_placement_rule :
  (forall popup win,
      measure popup win =
        (if PrimFloat.leb (PrimFloat.sub (innerWidth win) (rect_right popup)) (rect_width popup)
         then left else right,
         if PrimFloat.leb (PrimFloat.sub (innerHeight win) (rect_bottom popup)) (rect_height popup)
         then top else bottom))
  /\ (forall r w f node,
         current (refs w) r = Some node ->
         position (effect r w f) =
           (spec_alignment (getBoundingClientRect w node) (window w),
            spec_side (getBoundingClientRect w node) (window w)))
  /\ measure (mkRect 700 500 200 100) (mkWindow 800 600) = (left, top).
Proof.
  split; [| split].
  - intros popup win. apply measure_rule.
  - intros r w f node H. rewrite (effect_present _ _ _ _ H). simpl.
    apply measure_rule.
  - reflexivity.
Qed.

Lemma measurement_follows_placement_rule_witness :
  position (mount 0 world5) = (left, top).
Proof.
  destruct measurement_follows_placement_rule as [_ [H _]].
  exact (H 0 world5 _ 1 eq_refl).
Defined.





Lemma update_same_ref (r : RefId) (w : World) (f : Fiber) :
  r = dep_ref f -> update r w f = render f.
Proof.
  intros H. unfold update, usePosition.
  destruct (decide (r = dep_ref f)); [reflexivity | contradiction].
Qed.

Lemma update_other_ref (r : RefId) (w : World) (f : Fiber) :
  r <> dep_ref f ->
  update r w f =
    effect r w {| position := position f; dep_ref := r;
                  returned := returned f ++ [position f]; passes := passes f |}.
Proof.
  intros H. unfold update, usePosition.
  destruct (decide (r = dep_ref f)); [contradiction | reflexivity].
Qed.



(** C8. Running the measurement again on the same ref object in the same
    world publishes the same position, and when the node is there the
    published position does not depend on what was stored before. *)
Theorem measurement_idempotent (r : RefId) (w : World) (f g : Fiber) :
  position (effect r w (effect r w f)) = position (effect r w f)
  /\ (is_Some (current (refs w) r) ->
      position (effect r w g) = position (effect r w f)).
Proof.
  split.
  - destruct (current (refs w) r) as [node |] eqn:E.
    + rewrite (effect_present r w (effect r w f) node E),
        (effect_present r w f node E). reflexivity.
    + rewrite (effect_absent r w (effect r w f) E),
        (effect_absent r w f E). reflexivity.
  - intros [node E].
    rewrite (effect_present r w g node E), (effect_present r w f node E).
    reflexivity.
Qed.

Lemma measurement_idempotent_witness :
  position (effect 0 world5 (effect 0 world5 (mount 0 world_empty)))
    = position (effect 0 world5 (mount 0 world_empty))
  /\ position (effect 0 world5 (mount 0 world5))
     = position (effect 0 world5 (mount 0 world_empty)).
Proof.
  destruct (measurement_idempotent 0 world5 (mount 0 world_empty) (mount 0 world5))
    as [H1 H2].
  split; [exact H1 | apply H2; exists 1; reflexivity].
Defined.

(** C10. The alignment computed by the measurement depends only on
    [innerWidth], [box.right] and [box.width]; the side only on
    [innerHeight], [box.bottom] and [box.height]. *)
Theorem placement_axes_independent (popup1 popup2 : DOMRect) (win1 win2 : Window) :
  (innerWidth win1 = innerWidth win2 ->
   rect_right popup1 = rect_right popup2 ->
   rect_width popup1 = rect_width popup2 ->
   (measure popup1 win1).1 = (measure popup2 win2).1)
  /\ (innerHeight win1 = innerHeight win2 ->
      rect_bottom popup1 = rect_bottom popup2 ->
      rect_height popup1 = rect_height popup2 ->
      (measure popup1 win1).2 = (measure popup2 win2).2).
Proof.
  rewrite !measure_rule. unfold spec_alignment, spec_side. simpl. split.
  - intros -> -> ->. reflexivity.
  - intros -> -> ->. reflexivity.
Qed.

Lemma placement_axes_independent_witness :
  (measure (mkRect 700 500 200 100) (mkWindow 800 600)).1
    = (measure (mkRect 700 90 200 3000) (mkWindow 800 1000)).1
  /\ (measure (mkRect 700 500 200 100) (mkWindow 800 600)).2
     = (measure (mkRect 10 500 20 100) (mkWindow 5000 600)).2.
Proof.
  split.
  - apply (placement_axes_independent
             (mkRect 700 500 200 100) (mkRect 700 90 200 3000)
             (mkWindow 800 600) (mkWindow 800 1000)); reflexivity.
  - apply (placement_axes_independent
             (mkRect 700 500 200 100) (mkRect 10 500 20 100)
             (mkWindow 800 600) (mkWindow 5000 600)); reflexivity.
Defined.

(** * Further properties of [usePosition] *)

(** ** What the hook publishes *)

Lemma last_measured_snoc (ps : list Pass) (x : Pass) :
  forall acc,
    last_measured (ps ++ [x]) acc =
      match x with
      | measured _ p => Some p
      | skipped => last_measured ps acc
      end.
Proof.
  induction ps as [| y ps IH]; intros acc; simpl.
  - destruct x; reflexivity.
  - destruct y; apply IH.
Qed.

Lemma effect_published (r : RefId) (w : World) (f : Fiber) :
  position f = default initial_position (last_measured (passes f) None) ->
  position (effect r w f)
    = default initial_position (last_measured (passes (effect r w f)) None)
  /\ (last (returned f) = Some (position f) ->
      last (returned (effect r w f)) = Some (position (effect r w f))).
Proof.
  intros Hp. unfold effect. destruct (current (refs w) r) as [node |]; simpl.
  - rewrite last_measured_snoc. split; [reflexivity |].
    intros _. apply last_snoc.
  - rewrite last_measured_snoc. split; [exact Hp | auto].
Qed.

Lemma published_step (a : Action) (s : Fiber * World) :
  position s.1 = default initial_position (last_measured (passes s.1) None)
  /\ last (returned s.1) = Some (position s.1) ->
  position (step a s).1
    = default initial_position (last_measured (passes (step a s).1) None)
  /\ last (returned (step a s).1) = Some (position (step a s).1).
Proof.
  destruct s as [f w]. simpl. intros [Hp Hr].
  destruct a as [r | r n | win | layout]; simpl; try (split; assumption).
  destruct (decide (r = dep_ref f)) as [He | Hne].
  - rewrite update_same_ref by exact He. simpl. split; [exact Hp | apply last_snoc].
  - rewrite update_other_ref by exact Hne.
    set (f1 := {| position := position f; dep_ref := r;
                  returned := returned f ++ [position f]; passes := passes f |}).
    destruct (effect_published r w f1 Hp) as [G1 G2].
    split; [exact G1 | apply G2, last_snoc].
Qed.

(** X7. At every moment of a mounted instance's life the state cell holds
    the position of the most recent effect run that found a node, and
    [(right, bottom)] when no run has found one yet: a run that finds the
    ref cell empty never resets an earlier measurement. The value the hook
    returned last is always the state cell, so every measurement is
    followed by a render that returns it. *)
Theorem publishes_latest_measurement (r : RefId) (w : World) (acts : list Action) :
  let f := (run r w acts).1 in
  position f = default (right, bottom) (last_measured (passes f) None)
  /\ last (returned f) = Some (position f).
Proof.
  intros f. subst f. unfold run.
  assert (H0 : position (mount r w, w).1
               = default initial_position (last_measured (passes (mount r w, w).1) None)
               /\ last (returned (mount r w, w).1) = Some (position (mount r w, w).1)).
  { simpl. unfold mount, usePosition.
    destruct (effect_published r w
                (render {| position := initial_position; dep_ref := r;
                           returned := []; passes := [] |}) eq_refl) as [H1 H2].
    split; [exact H1 | apply H2; reflexivity]. }
  revert H0. generalize (mount r w, w) as s.
  induction acts as [| a acts IH]; intros s H; simpl.
  - exact H.
  - apply IH, published_step, H.
Qed.

(** ** The threshold of the comparison *)

Lemma SFcompare_antisym (a b : spec_float) :
  SFcompare b a = option_map CompOpp (SFcompare a b).
Proof.
  destruct a as [sa | sa | | sa ma ea], b as [sb | sb | | sb mb eb];
    simpl; try reflexivity;
    try (destruct sa; reflexivity); try (destruct sb; reflexivity);
    try (destruct sa, sb; reflexivity).
  destruct sa, sb; simpl; try reflexivity.
  - rewrite (Z.compare_antisym ea eb).
    change (Pos.compare_cont Eq mb ma) with (Pos.compare mb ma).
    change (Pos.compare_cont Eq ma mb) with (Pos.compare ma mb).
    rewrite (Pos.compare_antisym ma mb).
    destruct (Z.compare ea eb); simpl; try reflexivity.
  - rewrite (Z.compare_antisym ea eb).
    change (Pos.compare_cont Eq mb ma) with (Pos.compare mb ma).
    change (Pos.compare_cont Eq ma mb) with (Pos.compare ma mb).
    rewrite (Pos.compare_antisym ma mb).
    destruct (Z.compare ea eb); simpl; try reflexivity.
Qed.

Lemma SFcompare_self (a : spec_float) :
  SFcompare a a = None \/ SFcompare a a = Some Eq.
Proof.
  pose proof (SFcompare_antisym a a) as H.
  destruct (SFcompare a a) as [[| |] |]; simpl in H; auto; discriminate.
Qed.

Lemma SFcompare_none (a b : spec_float) :
  SFcompare a b = None -> a = S754_nan \/ b = S754_nan.
Proof.
  destruct a as [sa | sa | | sa ma ea], b as [sb | sb | | sb mb eb];
    simpl; intros H; try discriminate H; auto.
Qed.

Lemma SFleb_false_iff (a b : spec_float) :
  SFleb a b = false <->
  SFltb b a = true \/ SFeqb a a = false \/ SFeqb b b = false.
Proof.
  unfold SFleb, SFltb, SFeqb. rewrite (SFcompare_antisym a b).
  destruct (SFcompare a b) as [c |] eqn:Ec.
  - assert (Ha : SFcompare a a = Some Eq).
    { destruct (SFcompare_self a) as [H | H]; [| exact H].
      apply SFcompare_none in H. assert (a = S754_nan) by tauto. subst a.
      discriminate Ec. }
    assert (Hb : SFcompare b b = Some Eq).
    { destruct (SFcompare_self b) as [H | H]; [| exact H].
      apply SFcompare_none in H. assert (b = S754_nan) by tauto. subst b.
      destruct a; discriminate Ec. }
    rewrite Ha, Hb. destruct c; simpl; split; intros H; auto;
      try discriminate H; destruct H as [H | [H | H]]; discriminate H.
  - simpl. split; [intros _ | reflexivity]. right.
    destruct (SFcompare_none a b Ec) as [-> | ->]; simpl; auto.
Qed.

Lemma leb_false_iff (x y : float) :
  PrimFloat.leb x y = false <->
  PrimFloat.ltb y x = true \/ PrimFloat.is_nan x = true \/ PrimFloat.is_nan y = true.
Proof.
  unfold PrimFloat.is_nan.
  rewrite FloatAxioms.leb_spec, FloatAxioms.ltb_spec, !FloatAxioms.eqb_spec.
  rewrite !negb_true_iff. apply SFleb_false_iff.
Qed.

(** X8. The comparison is inclusive. The popup is aligned [right] exactly
    when its width is strictly less than the space on the right, or one of
    the two is not a number; symmetrically it is placed at the [bottom]
    exactly when its height is strictly less than the space below, or one
    of the two is not a number. A popup that fits with no pixel to spare
    is flipped. *)
Theorem flips_unless_strictly_more_space (popup : DOMRect) (win : Window) :
  let spaceOnRight := PrimFloat.sub (innerWidth win) (rect_right popup) in
  let spaceOnBottom := PrimFloat.sub (innerHeight win) (rect_bottom popup) in
  ((measure popup win).1 = right <->
     PrimFloat.ltb (rect_width popup) spaceOnRight = true
     \/ PrimFloat.is_nan spaceOnRight = true
     \/ PrimFloat.is_nan (rect_width popup) = true)
  /\ ((measure popup win).2 = bottom <->
      PrimFloat.ltb (rect_height popup) spaceOnBottom = true
      \/ PrimFloat.is_nan spaceOnBottom = true
      \/ PrimFloat.is_nan (rect_height popup) = true)
  /\ (spaceOnRight = rect_width popup ->
      PrimFloat.is_nan (rect_width popup) = false ->
      (measure popup win).1 = left)
  /\ (spaceOnBottom = rect_height popup ->
      PrimFloat.is_nan (rect_height popup) = false ->
      (measure popup win).2 = top).
Proof.
  intros sr sb. rewrite measure_rule. unfold spec_alignment, spec_side. simpl.
  fold sr sb.
  assert (Hself : forall x, PrimFloat.is_nan x = false -> PrimFloat.leb x x = true).
  { intros x Hx. destruct (PrimFloat.leb x x) eqn:E; [reflexivity |].
    apply leb_false_iff in E. destruct E as [E | [E | E]]; try congruence.
    unfold PrimFloat.is_nan in Hx. apply negb_false_iff in Hx.
    rewrite FloatAxioms.ltb_spec in E. rewrite FloatAxioms.eqb_spec in Hx. unfold SFltb in E. unfold SFeqb in Hx.
    destruct (SFcompare (Prim2SF x) (Prim2SF x)) as [[| |] |]; discriminate. }
  split; [| split; [| split]].
  - rewrite <- leb_false_iff. destruct (PrimFloat.leb sr (rect_width popup));
      split; intros H; try reflexivity; discriminate H.
  - rewrite <- leb_false_iff. destruct (PrimFloat.leb sb (rect_height popup));
      split; intros H; try reflexivity; discriminate H.
  - intros -> Hn. rewrite (Hself _ Hn). reflexivity.
  - intros -> Hn. rewrite (Hself _ Hn). reflexivity.
Qed.

Lemma flips_unless_strictly_more_space_witness :
  (measure (mkRect 600 500 200 100) (mkWindow 800 600)).1 = left
  /\ (measure (mkRect 600 500 200 100) (mkWindow 800 600)).2 = top.
Proof.
  destruct (flips_unless_strictly_more_space
              (mkRect 600 500 200 100) (mkWindow 800 600)) as (_ & _ & H1 & H2).
  split; [apply H1 | apply H2]; reflexivity.
Defined.

End PositionFacts.

(** * Properties of [useKeyboard] *)

Module KeyboardFacts.
Import Dom Keyboard.

(** ** The wrapped handler *)

Lemma eventHandler_match (h : Closure) (e : KeyboardEvent) :
  key e = key_string (cap_key h) ->
  eventHandler h e =
    (if cap_preventDefault h then KeyboardEvent_preventDefault e else e,
     [called (cap_listener h)
        (if cap_preventDefault h then KeyboardEvent_preventDefault e else e)]).
Proof.
  intros H. unfold eventHandler.
  apply String.eqb_eq in H. rewrite H. reflexivity.
Qed.

Lemma eventHandler_other (h : Closure) (e : KeyboardEvent) :
  key e <> key_string (cap_key h) -> eventHandler h e = (e, []).
Proof.
  intros H. unfold eventHandler.
  apply String.eqb_neq in H. rewrite H. reflexivity.
Qed.

(** ** One render after another *)

Lemma resolve_options_eta (p : Props) :
  resolve_options (p_options p) = (event_of p, preventDefault_of p, ref_of p).
Proof.
  unfold event_of, preventDefault_of, ref_of.
  destruct (resolve_options (p_options p)) as [[ev pd] rf]. reflexivity.
Qed.

Lemma resolve_target_refs (rf : option RefId) (w w' : World) :
  refs w' = refs w -> resolve_target rf w' = resolve_target rf w.
Proof. intros H. unfold resolve_target. rewrite H. reflexivity. Qed.

Lemma run_cleanup_refs (c : EventTarget * TKeyboardEvent * Closure) (w : World) :
  refs (run_cleanup c w) = refs w.
Proof. destruct c as [[t ty] h]. reflexivity. Qed.

Lemma mount_eq (p : Props) (w : World) :
  mount p w =
    let h := mkClosure (next_fn w) (p_key p) (preventDefault_of p) (p_listener p) in
    let target := resolve_target (ref_of p) w in
    (mkFiber h (p_key p) (event_of p, next_fn w, ref_of p) (target, event_of p, h),
     addEventListener target (event_of p) h (alloc_fn w)).
Proof.
  unfold mount, useKeyboard. rewrite resolve_options_eta. reflexivity.
Qed.

Lemma update_no_rebind (p q : Props) (f : Fiber) (w : World) :
  memo_deps f = p_key p ->
  effect_deps f = (event_of p, fn_id (memo_fn f), ref_of p) ->
  rebinds p q = false ->
  update q f w = (f, alloc_fn w).
Proof.
  intros Hk Hd Hr. unfold rebinds in Hr.
  apply orb_false_elim in Hr as [Hr Hrf]. apply orb_false_elim in Hr as [Hkey Hev].
  apply negb_false_iff, bool_decide_eq_true_1 in Hkey, Hev, Hrf.
  unfold update, useKeyboard. rewrite resolve_options_eta. simpl.
  rewrite Hk. destruct (decide (p_key q = p_key p)); [| contradiction].
  simpl. rewrite Hd, Hev, Hrf.
  destruct (decide _) as [_ | Hne]; [| contradiction Hne; reflexivity].
  destruct f; simpl in *. congruence.
Qed.

Lemma update_rebind (p q : Props) (f : Fiber) (w : World) :
  memo_deps f = p_key p ->
  effect_deps f = (event_of p, fn_id (memo_fn f), ref_of p) ->
  fn_id (memo_fn f) < next_fn w ->
  rebinds p q = true ->
  update q f w =
    let h := handler_after p q f w in
    let target := resolve_target (ref_of q) w in
    (mkFiber h (p_key q) (event_of q, fn_id h, ref_of q) (target, event_of q, h),
     addEventListener target (event_of q) h (run_cleanup (cleanup f) (alloc_fn w))).
Proof.
  intros Hk Hd Hlt Hr.
  unfold update, useKeyboard, handler_after. rewrite resolve_options_eta. simpl.
  rewrite Hk, Hd.
  destruct (decide (p_key q = p_key p)) as [Hkey | Hkey]; simpl.
  - destruct (decide _) as [Heq | _].
    + exfalso. unfold rebinds in Hr.
      injection Heq as Hev Hrf.
      rewrite (bool_decide_eq_true_2 _ Hkey), (bool_decide_eq_true_2 _ Hev),
        (bool_decide_eq_true_2 _ Hrf) in Hr. discriminate Hr.
    + unfold effect.
      rewrite (resolve_target_refs _ w (run_cleanup (cleanup f) (alloc_fn w)))
        by apply (run_cleanup_refs (cleanup f) (alloc_fn w)).
      rewrite Hkey, <- Hk. reflexivity.
  - destruct (decide _) as [Heq | _].
    + exfalso. injection Heq as _ Hid _. lia.
    + unfold effect.
      rewrite (resolve_target_refs _ w (run_cleanup (cleanup f) (alloc_fn w)))
        by apply (run_cleanup_refs (cleanup f) (alloc_fn w)).
      reflexivity.
Qed.

(** ** The log of DOM calls *)

Lemma paired_app (l1 l2 : list DomCall) :
  paired l1 = true -> paired (l1 ++ l2) = paired l2.
Proof.
  induction l1 as [l1 IH] using (induction_ltof1 _ (@length DomCall)).
  unfold ltof in IH.
  destruct l1 as [| [t ty fn | t ty fn] [| [t' ty' fn' | t' ty' fn'] l1]];
    simpl; try discriminate; [reflexivity |].
  intros H. apply andb_prop in H as [H1 H2]. rewrite H1. simpl.
  apply IH; [simpl; lia | exact H2].
Qed.

Lemma paired_snoc (done : list DomCall) (t : EventTarget) (ty : TKeyboardEvent) (fn : FnId) :
  paired done = true ->
  paired (done ++ [call_add t ty fn; call_remove t ty fn]) = true.
Proof.
  intros H. rewrite paired_app by exact H. simpl.
  rewrite !bool_decide_eq_true_2 by reflexivity. reflexivity.
Qed.

Lemma bound_mount (p : Props) (w : World) :
  bound (dom_calls w) p p (mount p w).
Proof.
  rewrite mount_eq. exists (resolve_target (ref_of p) w), []. simpl.
  repeat split; lia.
Qed.

Lemma bound_step (log0 : list DomCall) (p c : Props) (a : Action) (s : Fiber * World) :
  bound log0 p c s ->
  bound log0 (next_props p a) (next_capture c a) (step a s).
Proof.
  destruct s as [f w].
  intros (target & done & Hc & Hd & Hk & Hpc & Hm & Hlt & Hp & Hlog). simpl in *.
  destruct a as [q | r n]; simpl.
  - destruct (rebinds p q) eqn:Hr.
    + rewrite (update_rebind p q f w Hk Hd Hlt Hr). simpl.
      exists (resolve_target (ref_of q) w),
        (done ++ [call_add target (event_of p) (fn_id (memo_fn f));
                  call_remove target (event_of p) (fn_id (memo_fn f))]).
      rewrite Hc. simpl. rewrite Hlog. unfold handler_after.
      rewrite Hpc.
      destruct (decide (p_key q = p_key p)) as [Hkey | Hkey]; simpl.
      * repeat split; try congruence; try lia.
        -- apply paired_snoc, Hp.
        -- rewrite <- !app_assoc. reflexivity.
      * repeat split; try congruence; try lia.
        -- apply paired_snoc, Hp.
        -- rewrite <- !app_assoc. reflexivity.
    + rewrite (update_no_rebind p q f w Hk Hd Hr). simpl.
      unfold rebinds in Hr.
      apply orb_false_elim in Hr as [Hr Hrf]. apply orb_false_elim in Hr as [Hkey Hev].
      apply negb_false_iff, bool_decide_eq_true_1 in Hkey, Hev, Hrf.
      exists target, done. rewrite Hev, Hrf, Hkey, Hpc.
      destruct (decide (p_key p = p_key p)); [| contradiction].
      repeat split; try assumption; try congruence.
      simpl. lia.
  - exists target, done. repeat split; assumption.
Qed.

Lemma bound_foldl (log0 : list DomCall) (acts : list Action) :
  forall (p c : Props) (s : Fiber * World),
    bound log0 p c s ->
    bound log0 (foldl next_props p acts) (foldl next_capture c acts)
      (foldl (fun s a => step a s) s acts).
Proof.
  induction acts as [| a acts IH]; intros p c s H; simpl.
  - exact H.
  - apply IH, bound_step, H.
Qed.

Lemma bound_run (p : Props) (w : World) (acts : list Action) :
  bound (dom_calls w) (last_props p acts) (capture_props p acts) (run p w acts).
Proof. apply bound_foldl, bound_mount. Qed.

(** ** The wrapped handler, at any render *)

(** C2, as stated, fails on an event that is not cancelable: with
    [preventDefault] on and the key matching, the handler calls
    [e.preventDefault()], which does nothing on such an event, so the
    default-prevented flag stays false. *)
Lemma preventDefault_needs_cancelable_event :
  ~ (forall p w e,
        key e = key_string (p_key p) ->
        preventDefault_of p = true ->
        defaultPrevented (eventHandler (memo_fn (mount p w).1) e).1 = true).
Proof.
  intros H.
  specialize (H (props_enter 5) world0 enter_synthetic eq_refl eq_refl).
  vm_compute in H. discriminate H.
Qed.

(** C2, amended. At any moment of a mounted instance's life the handler
    the hook holds compares the event's [key] with the [key] of the latest
    render and calls the listener it closed over once when they are equal
    and not at all otherwise. On a match the listener receives the event
    object itself, on which [preventDefault] has been called before when
    the [preventDefault] option the handler closed over is on (it is on
    when the option is left out): the default-prevented flag is then set
    if the event is cancelable and stays as it was if it is not; no other
    field changes. With the option off, on another key, or on an event
    that is not cancelable, the event leaves the handler exactly as it
    came, flag included. The listener and the option are those of the
    render that created the handler, which at mount is the mount itself. *)
Theorem wrapped_handler_filters_by_key
    (p : Props) (w : World) (acts : list Action) (e : KeyboardEvent) :
  let h := memo_fn (run p w acts).1 in
  let k := p_key (last_props p acts) in
  let captured := capture_props p acts in
  let listener := p_listener captured in
  let suppressDefault :=
    match p_options captured with
    | Some o => match preventDefault o with Some b => b | None => true end
    | None => true
    end in
  let out := eventHandler h e in
  p_key captured = k
  /\ capture_props p [] = p
  /\ (key e = key_string k ->
      out.2 = [called listener out.1]
      /\ type out.1 = type e /\ key out.1 = key e
      /\ cancelable out.1 = cancelable e
      /\ defaultPrevented out.1 = (suppressDefault && cancelable e || defaultPrevented e))
  /\ (key e <> key_string k -> out = (e, []))
  /\ (suppressDefault = false -> out.1 = e)
  /\ (cancelable e = false -> out.1 = e)
  /\ (suppressDefault = true -> key e = key_string k -> cancelable e = true ->
      defaultPrevented out.1 = true)
  /\ (length out.2 = 1 <-> key e = key_string k).
Proof.
  intros h k captured listener sd out.
  destruct (bound_run p w acts) as (t0 & done & _ & _ & _ & Hpc & Hm & _).
  fold h captured k in Hpc, Hm.
  assert (Hsd : preventDefault_of captured = sd).
  { unfold preventDefault_of, resolve_options. subst sd.
    destruct (p_options captured) as [o |]; [| reflexivity].
    simpl. destruct (preventDefault o); reflexivity. }
  rewrite Hsd in Hm. fold listener in Hm.
  split; [exact Hpc |]. split; [reflexivity |].
  assert (Hck : cap_key h = k) by (rewrite Hm; exact Hpc).
  assert (Hcl : cap_listener h = listener) by (rewrite Hm; reflexivity).
  assert (Hcp : cap_preventDefault h = sd) by (rewrite Hm; reflexivity).
  subst out. destruct (decide (key e = key_string k)) as [Hk | Hk].
  - rewrite eventHandler_match by (rewrite Hck; exact Hk).
    rewrite Hcl, Hcp. simpl.
    destruct e as [ty ky c d]. unfold KeyboardEvent_preventDefault. simpl in *.
    repeat split; try tauto; destruct sd, c, d; simpl; try reflexivity;
      intros; try discriminate; reflexivity.
  - rewrite eventHandler_other by (rewrite Hck; exact Hk). simpl.
    repeat split; try tauto; try discriminate.
Qed.

Lemma wrapped_handler_filters_by_key_witness :
  eventHandler (memo_fn (run (props_enter 5) world0 []).1) enter_down
    = (mkEvent keydown "Enter" true true, [called 5 (mkEvent keydown "Enter" true true)])
  /\ eventHandler (memo_fn (run (props_enter 5) world0 []).1) enter_synthetic
     = (enter_synthetic, [called 5 enter_synthetic])
  /\ eventHandler (memo_fn (run (props_no_prevent 5) world0 []).1) enter_down
     = (enter_down, [called 5 enter_down])
  /\ eventHandler
       (memo_fn (run (props_enter 5) world0 [rerender (props_escape 6)]).1) enter_down
     = (enter_down, []).
Proof.
  pose proof (wrapped_handler_filters_by_key (props_enter 5) world0 [] enter_down)
    as (_ & _ & H1 & _).
  pose proof (wrapped_handler_filters_by_key (props_enter 5) world0 [] enter_synthetic)
    as (_ & _ & H2 & _ & _ & H2' & _).
  pose proof (wrapped_handler_filters_by_key (props_no_prevent 5) world0 [] enter_down)
    as (_ & _ & H3 & _ & H3' & _).
  pose proof (wrapped_handler_filters_by_key (props_enter 5) world0
                [rerender (props_escape 6)] enter_down) as (_ & _ & _ & H4 & _).
  destruct (H1 eq_refl) as (C1 & _). destruct (H2 eq_refl) as (C2 & _).
  destruct (H3 eq_refl) as (C3 & _).
  pose proof (H2' eq_refl) as E2. pose proof (H3' eq_refl) as E3.
  split; [reflexivity |].
  split; [apply injective_projections; [exact E2 | rewrite C2, E2; reflexivity] |].
  split; [apply injective_projections; [exact E3 | rewrite C3, E3; reflexivity] |].
  apply H4. discriminate.
Defined.

(** ** The listener table *)

Lemma existsb_same_listener_fresh
    (t : EventTarget) (ty : TKeyboardEvent) (fn : FnId) (base : list Registration) :
  Forall (fun r => fn_id (reg_handler r) < fn) base ->
  existsb (same_listener t ty fn) base = false.
Proof.
  induction 1 as [| r base Hr _ IH]; simpl; [reflexivity |].
  rewrite IH, orb_false_r. unfold same_listener.
  rewrite (bool_decide_eq_false_2 (fn_id (reg_handler r) = fn)) by lia.
  apply andb_false_r.
Qed.

Lemma filter_other_listeners
    (t : EventTarget) (ty : TKeyboardEvent) (fn : FnId) (base : list Registration) :
  Forall (fun r => fn_id (reg_handler r) < fn) base ->
  List.filter (fun r => negb (same_listener t ty fn r)) base = base.
Proof.
  induction 1 as [| r base Hr _ IH]; simpl; [reflexivity |].
  unfold same_listener at 1.
  rewrite (bool_decide_eq_false_2 (fn_id (reg_handler r) = fn)) by lia.
  rewrite andb_false_r. simpl. rewrite IH. reflexivity.
Qed.

Lemma remove_own_listener
    (t : EventTarget) (ty : TKeyboardEvent) (h : Closure) (base : list Registration)
    (w : World) :
  Forall (fun r => fn_id (reg_handler r) < fn_id h) base ->
  listeners w = base ++ [mkReg t ty h] ->
  listeners (removeEventListener t ty h w) = base.
Proof.
  intros Hb Hl. simpl. rewrite Hl, List.filter_app, filter_other_listeners by exact Hb.
  simpl. unfold same_listener. simpl.
  rewrite !bool_decide_eq_true_2 by reflexivity. simpl. apply app_nil_r.
Qed.

Lemma add_fresh_listener
    (t : EventTarget) (ty : TKeyboardEvent) (h : Closure) (w : World) :
  Forall (fun r => fn_id (reg_handler r) < fn_id h) (listeners w) ->
  listeners (addEventListener t ty h w) = listeners w ++ [mkReg t ty h].
Proof.
  intros Hb. simpl. rewrite existsb_same_listener_fresh by exact Hb. reflexivity.
Qed.

Lemma subscribed_mount (p : Props) (w : World) :
  fresh_ids w -> subscribed (listeners w) (mount p w).
Proof.
  intros Hw. rewrite mount_eq. unfold subscribed. simpl. split; [exact Hw |].
  rewrite existsb_same_listener_fresh by exact Hw. reflexivity.
Qed.

Lemma subscribed_step
    (log0 : list DomCall) (p c : Props) (base : list Registration)
    (a : Action) (s : Fiber * World) :
  bound log0 p c s -> subscribed base s -> subscribed base (step a s).
Proof.
  destruct s as [f w].
  intros (target & done & Hc & Hd & Hk & Hpc & Hm & Hlt & Hp & Hlog) [Hb Hl].
  simpl in *. destruct a as [q | r n]; simpl.
  - destruct (rebinds p q) eqn:Hr.
    + rewrite (update_rebind p q f w Hk Hd Hlt Hr). unfold subscribed. simpl.
      rewrite Hc in *. simpl in *.
      assert (Hb' : Forall (fun r => fn_id (reg_handler r) < fn_id (handler_after p q f w)) base).
      { unfold handler_after. destruct (decide (p_key q = p_key p)); [exact Hb |].
        simpl. eapply Forall_impl; [exact Hb |]. simpl. intros r Hr'. lia. }
      split; [exact Hb' |].
      pose proof (remove_own_listener target (event_of p) (memo_fn f) base
                    (alloc_fn w) Hb Hl) as Hrm.
      simpl in Hrm. rewrite Hrm.
      rewrite existsb_same_listener_fresh by exact Hb'. reflexivity.
    + rewrite (update_no_rebind p q f w Hk Hd Hr). split; assumption.
  - split; assumption.
Qed.

Lemma subscribed_foldl (log0 : list DomCall) (base : list Registration) (acts : list Action) :
  forall (p c : Props) (s : Fiber * World),
    bound log0 p c s -> subscribed base s ->
    subscribed base (foldl (fun s a => step a s) s acts).
Proof.
  induction acts as [| a acts IH]; intros p c s Hs Hb; simpl.
  - exact Hb.
  - apply (IH (next_props p a) (next_capture c a)).
    + apply bound_step, Hs.
    + eapply subscribed_step; eassumption.
Qed.

Lemma subscribed_run (p : Props) (w : World) (acts : list Action) :
  fresh_ids w -> subscribed (listeners w) (run p w acts).
Proof.
  intros Hw. eapply subscribed_foldl; [apply bound_mount | apply subscribed_mount, Hw].
Qed.

(** ** Where the subscription goes *)

Lemma resolve_target_cases (rf : option RefId) (w : World) :
  resolve_target rf w =
    match rf with
    | Some r => from_option element document (current (refs w) r)
    | None => document
    end.
Proof.
  unfold resolve_target. destruct rf as [r |]; [| reflexivity].
  destruct (current (refs w) r); reflexivity.
Qed.

(** C7. [ref?.current || document] is the element when the ref cell holds
    one and [document] when the cell is empty or no ref was passed. Every
    install, at mount and at a later render that rebinds, calls
    [addEventListener] on the target so resolved in the world of that
    moment, and the listener table receives the registration there. All
    functions are total: the fallback raises nothing. *)
Theorem subscription_target_resolution :
  (forall r w node,
      current (refs w) r = Some node -> resolve_target (Some r) w = element node)
  /\ (forall r w, current (refs w) r = None -> resolve_target (Some r) w = document)
  /\ (forall w, resolve_target None w = document)
  /\ (forall p w,
         let s := mount p w in
         let target := resolve_target (ref_of p) w in
         cleanup s.1 = (target, event_of p, memo_fn s.1)
         /\ dom_calls s.2 =
              dom_calls w ++ [call_add target (event_of p) (fn_id (memo_fn s.1))]
         /\ (fresh_ids w ->
             listeners s.2 = listeners w ++ [mkReg target (event_of p) (memo_fn s.1)]))
  /\ (forall p w acts q,
         let s := run p w acts in
         let s' := update q s.1 s.2 in
         let target := resolve_target (ref_of q) s.2 in
         rebinds (last_props p acts) q = true ->
         cleanup s'.1 = (target, event_of q, memo_fn s'.1)
         /\ (exists c,
                dom_calls s'.2 =
                  dom_calls s.2 ++ [c; call_add target (event_of q) (fn_id (memo_fn s'.1))])
         /\ (fresh_ids w ->
             listeners s'.2 = listeners w ++ [mkReg target (event_of q) (memo_fn s'.1)])).
Proof.
  split; [| split; [| split; [| split]]].
  - intros r w node H. rewrite resolve_target_cases, H. reflexivity.
  - intros r w H. rewrite resolve_target_cases, H. reflexivity.
  - reflexivity.
  - intros p w s target. subst s target. rewrite mount_eq. simpl.
    repeat split.
    intros Hw. rewrite existsb_same_listener_fresh by exact Hw. reflexivity.
  - intros p w acts q s s' target Hr.
    pose proof (bound_run p w acts) as Hs. fold s in Hs.
    destruct Hs as (t0 & done & Hc & Hd & Hk & Hpc & Hm & Hlt & Hp & Hlog).
    assert (Hup := update_rebind _ q s.1 s.2 Hk Hd Hlt Hr).
    fold s' in Hup. fold target in Hup. simpl in Hup.
    split; [rewrite Hup; reflexivity |].
    split.
    + exists (call_remove t0 (event_of (last_props p acts)) (fn_id (memo_fn s.1))).
      rewrite Hup. simpl. rewrite Hc. simpl. rewrite <- app_assoc. reflexivity.
    + intros Hw.
      assert (Hsub : subscribed (listeners w) (step (rerender q) s)).
      { eapply subscribed_step; [apply bound_run | apply subscribed_run, Hw]. }
      destruct Hsub as [_ Hl]. destruct s as [f w1]. simpl in *. fold s' in Hl.
      rewrite Hl, Hup. reflexivity.
Qed.

Lemma subscription_target_resolution_witness :
  dom_calls (mount (props_ref 5 7) world_ref).2 = [call_add (element 1) keyup 0]
  /\ dom_calls (mount (props_ref 5 8) world_ref).2 = [call_add document keyup 0]
  /\ listeners (mount (props_ref 5 7) world_ref).2
     = [mkReg (element 1) keyup (mkClosure 0 Enter false 5)].
Proof.
  destruct subscription_target_resolution as (_ & _ & _ & H & _).
  destruct (H (props_ref 5 7) world_ref) as (_ & H1 & H2).
  destruct (H (props_ref 5 8) world_ref) as (_ & H3 & _).
  split; [exact H1 | split; [exact H3 |]].
  apply H2. constructor.
Defined.

(** ** Teardown *)

Lemma ref_writes_keep_fiber (acts : list Action) :
  forall s : Fiber * World,
    forallb is_set_current acts = true ->
    (foldl (fun s a => step a s) s acts).1 = s.1
    /\ dom_calls (foldl (fun s a => step a s) s acts).2 = dom_calls s.2
    /\ listeners (foldl (fun s a => step a s) s acts).2 = listeners s.2.
Proof.
  induction acts as [| a acts IH]; intros s H; simpl in *.
  - repeat split.
  - apply andb_prop in H as [Ha H]. destruct (IH (step a s) H) as (H1 & H2 & H3).
    rewrite H1, H2, H3. destruct s as [f w], a as [q | r n]; [discriminate |].
    repeat split.
Qed.

(** C9. At any moment of a mounted instance's life the cleanup closure
    holds the target, the event name and the function of the last
    [addEventListener] call, and teardown (at unmount or at a render that
    rebinds) calls [removeEventListener] with exactly these. When only ref
    cells were written since the mount, they are the target resolved at
    mount, whatever the cell holds by now. *)
Theorem cleanup_removes_from_captured_target
    (p : Props) (w : World) (acts : list Action) :
  let s := run p w acts in
  exists target event h log,
    dom_calls s.2 = log ++ [call_add target event (fn_id h)]
    /\ cleanup s.1 = (target, event, h)
    /\ dom_calls (unmount s.1 s.2) =
         dom_calls s.2 ++ [call_remove target event (fn_id h)]
    /\ (forall q,
           rebinds (last_props p acts) q = true ->
           exists c,
             dom_calls (update q s.1 s.2).2 =
               dom_calls s.2 ++ [call_remove target event (fn_id h); c])
    /\ (forallb is_set_current acts = true ->
        target = resolve_target (ref_of p) w
        /\ event = event_of p
        /\ h = memo_fn (mount p w).1)
    /\ (fresh_ids w -> listeners (unmount s.1 s.2) = listeners w).
Proof.
  intros s.
  pose proof (bound_run p w acts) as Hs. fold s in Hs.
  destruct Hs as (target & done & Hc & Hd & Hk & Hpc & Hm & Hlt & Hp & Hlog).
  exists target, (event_of (last_props p acts)), (memo_fn s.1), (dom_calls w ++ done).
  split; [rewrite Hlog, app_assoc; reflexivity |].
  split; [exact Hc |].
  split; [unfold unmount; rewrite Hc; reflexivity |].
  split; [| split].
  - intros q Hr. eexists.
    rewrite (update_rebind _ q s.1 s.2 Hk Hd Hlt Hr). simpl.
    rewrite Hc. simpl. rewrite <- app_assoc. reflexivity.
  - intros Hacts.
    destruct (ref_writes_keep_fiber acts (mount p w) Hacts) as (Hf & _ & _).
    fold (run p w acts) in Hf. fold s in Hf. rewrite Hf in Hc.
    rewrite mount_eq in Hc. simpl in Hc.
    injection Hc as -> Hev. rewrite <- Hev, Hf, mount_eq. repeat split.
  - intros Hw. destruct (subscribed_run p w acts Hw) as [Hb Hl]. fold s in Hb, Hl.
    unfold unmount. rewrite Hc in *. simpl in *.
    apply (remove_own_listener _ _ _ _ _ Hb Hl).
Qed.

Lemma cleanup_removes_from_captured_target_witness :
  resolve_target (Some 7) (run (props_ref 5 7) world_ref [set_current 7 (Some 2)]).2
    = element 2
  /\ dom_calls (unmount (run (props_ref 5 7) world_ref [set_current 7 (Some 2)]).1
                       (run (props_ref 5 7) world_ref [set_current 7 (Some 2)]).2)
     = [call_add (element 1) keyup 0; call_remove (element 1) keyup 0].
Proof.
  split; [reflexivity |].
  destruct (cleanup_removes_from_captured_target
              (props_ref 5 7) world_ref [set_current 7 (Some 2)])
    as (target & event & h & log & _ & _ & H3 & _ & H5 & _).
  destruct (H5 eq_refl) as (-> & -> & ->). exact H3.
Defined.

Lemma dispatchEvent_nil (path : list EventTarget) (e : KeyboardEvent) :
  dispatchEvent [] path e = (e, []).
Proof.
  induction path as [| t path IH]; simpl; [reflexivity |].
  rewrite IH. reflexivity.
Qed.

Lemma dispatchEvent_single (r : Registration) (e : KeyboardEvent) :
  reg_type r = type e ->
  dispatchEvent [r] [reg_target r] e = eventHandler (reg_handler r) e.
Proof.
  intros H. simpl.
  rewrite (bool_decide_eq_true_2 _ eq_refl), (bool_decide_eq_true_2 _ H). simpl.
  destruct (eventHandler (reg_handler r) e) as [e1 c1].
  rewrite !app_nil_r. reflexivity.
Qed.

(** C4. Through a whole life (mount, any renders and ref writes, unmount)
    the listener table holds exactly one registration of the instance
    while it is mounted; the DOM calls it makes are pairs of one
    [addEventListener] and, right after it and before the next install,
    one [removeEventListener] with the same target, event name and
    function; after the unmount the table is what it was before the mount,
    so any event is delivered as if the instance had never been there,
    and with no other listener around nothing is called. *)
Theorem no_subscription_leaked (p : Props) (w : World) (acts : list Action) :
  fresh_ids w ->
  let s := run p w acts in
  let w' := unmount s.1 s.2 in
  (exists reg, listeners s.2 = listeners w ++ [reg])
  /\ (exists log, dom_calls w' = dom_calls w ++ log /\ paired log = true)
  /\ listeners w' = listeners w
  /\ (forall path e,
         dispatchEvent (listeners w') path e = dispatchEvent (listeners w) path e)
  /\ (listeners w = [] ->
      forall path e, dispatchEvent (listeners w') path e = (e, [])).
Proof.
  intros Hw s w'.
  pose proof (bound_run p w acts) as Hs. fold s in Hs.
  destruct Hs as (target & done & Hc & _ & _ & _ & _ & _ & Hp & Hlog).
  destruct (subscribed_run p w acts Hw) as [Hb Hl]. fold s in Hb, Hl.
  assert (Hl' : listeners w' = listeners w).
  { subst w'. unfold unmount. rewrite Hc in *. simpl in Hl.
    apply (remove_own_listener _ _ _ _ _ Hb Hl). }
  split; [eexists; exact Hl |].
  split.
  { exists (done ++ [call_add target (event_of (last_props p acts)) (fn_id (memo_fn s.1));
                     call_remove target (event_of (last_props p acts)) (fn_id (memo_fn s.1))]).
    split; [| apply paired_snoc, Hp].
    subst w'. unfold unmount. rewrite Hc. simpl. rewrite Hlog.
    rewrite <- !app_assoc. reflexivity. }
  split; [exact Hl' |].
  split.
  - intros path e. rewrite Hl'. reflexivity.
  - intros H0 path e. rewrite Hl', H0. apply dispatchEvent_nil.
Qed.

Lemma no_subscription_leaked_witness :
  fresh_ids world0
  /\ dispatchEvent
       (listeners (run (props_enter 5) world0
                     [rerender (props_escape 5); rerender (props_enter 6)]).2)
       [document] enter_down
     = (mkEvent keydown "Enter" true true, [called 6 (mkEvent keydown "Enter" true true)])
  /\ dispatchEvent
       (listeners
          (unmount
             (run (props_enter 5) world0
                [rerender (props_escape 5); rerender (props_enter 6)]).1
             (run (props_enter 5) world0
                [rerender (props_escape 5); rerender (props_enter 6)]).2))
       [document] enter_down
     = (enter_down, []).
Proof.
  assert (H0 : fresh_ids world0) by constructor.
  split; [exact H0 |]. split; [reflexivity |].
  destruct (no_subscription_leaked (props_enter 5) world0
              [rerender (props_escape 5); rerender (props_enter 6)] H0)
    as (_ & _ & _ & _ & H).
  apply H. reflexivity.
Defined.

(** ** Rebinding *)

Lemma run_snoc (p : Props) (w : World) (acts : list Action) (q : Props) :
  run p w (acts ++ [rerender q]) = update q (run p w acts).1 (run p w acts).2.
Proof.
  unfold run. rewrite foldl_app. simpl.
  destruct (foldl _ _ acts) as [f w1]. reflexivity.
Qed.

Lemma capture_props_snoc (p : Props) (acts : list Action) (q : Props) :
  capture_props p (acts ++ [rerender q]) =
    if decide (p_key q = p_key (capture_props p acts))
    then capture_props p acts else q.
Proof. unfold capture_props. rewrite foldl_app. reflexivity. Qed.

Lemma last_props_snoc (p : Props) (acts : list Action) (q : Props) :
  last_props p (acts ++ [rerender q]) = q.
Proof. unfold last_props. rewrite foldl_app. reflexivity. Qed.

(** C3, as stated, fails twice: a render that changes only [key] tears
    the subscription down and installs it again, and after a render that
    changes only the listener an Enter key press still calls the listener
    of the mount. *)
Lemma key_change_rebinds_and_listener_is_stale :
  ~ (forall p q w,
        event_of q = event_of p -> ref_of q = ref_of p ->
        dom_calls (update q (mount p w).1 (mount p w).2).2 = dom_calls (mount p w).2)
  /\ ~ (forall p q e,
          key e = key_string (p_key q) -> type e = event_of q ->
          exists e',
            (dispatchEvent
               (listeners (update q (mount p world0).1 (mount p world0).2).2)
               [resolve_target (ref_of q) world0] e).2
            = [called (p_listener q) e']).
Proof.
  split.
  - intros H.
    specialize (H (props_enter 5) (props_escape 5) world0 eq_refl eq_refl).
    vm_compute in H. discriminate H.
  - intros H.
    destruct (H (props_enter 5) (props_enter 6) enter_down eq_refl eq_refl)
      as [e' He'].
    vm_compute in He'. discriminate He'.
Qed.

(** C3, amended. A render after which the subscription is torn down and
    installed again is exactly one that changes [key], [event] or the ref
    object; otherwise cells, DOM calls and listener table stay as they
    are. The memoised function is replaced exactly when [key] changes, so
    the function in the listener table always compares against the latest
    [key]; the listener and the [preventDefault] flag it uses are those of
    the latest render at which [key] changed (of the mount, when it never
    did), not those of the latest render. An event of the subscribed type
    fired at the subscribed target runs exactly that function. *)
Theorem rebinding_policy (p : Props) (w : World) (acts : list Action) (q : Props) :
  let s := run p w acts in
  let prev := last_props p acts in
  let s' := update q s.1 s.2 in
  let captured := capture_props p (acts ++ [rerender q]) in
  (rebinds prev q = false ->
     s'.1 = s.1 /\ dom_calls s'.2 = dom_calls s.2 /\ listeners s'.2 = listeners s.2)
  /\ (rebinds prev q = true ->
      exists old new,
        cleanup s.1 = (old, event_of prev, memo_fn s.1)
        /\ dom_calls s'.2 =
             dom_calls s.2 ++ [call_remove old (event_of prev) (fn_id (memo_fn s.1));
                               call_add new (event_of q) (fn_id (memo_fn s'.1))])
  /\ (memo_fn s'.1 = memo_fn s.1 <-> p_key q = p_key prev)
  /\ cap_key (memo_fn s'.1) = p_key q
  /\ cap_listener (memo_fn s'.1) = p_listener captured
  /\ cap_preventDefault (memo_fn s'.1) = preventDefault_of captured
  /\ captured = (if decide (p_key q = p_key prev) then capture_props p acts else q)
  /\ (fresh_ids w ->
      exists target,
        listeners s'.2 = listeners w ++ [mkReg target (event_of q) (memo_fn s'.1)]
        /\ (listeners w = [] ->
            forall e, type e = event_of q ->
              dispatchEvent (listeners s'.2) [target] e = eventHandler (memo_fn s'.1) e)).
Proof.
  intros s prev s' captured.
  pose proof (bound_run p w acts) as Hs. fold s prev in Hs.
  pose proof (bound_run p w (acts ++ [rerender q])) as Hs'.
  rewrite run_snoc, last_props_snoc in Hs'. fold s s' captured in Hs'.
  destruct Hs as (t0 & done & Hc & Hd & Hk & Hpc & Hm & Hlt & Hp & Hlog).
  destruct Hs' as (t1 & done' & Hc' & Hd' & Hk' & Hpc' & Hm' & Hlt' & Hp' & Hlog').
  split; [| split; [| split; [| split; [| split; [| split; [| split]]]]]].
  - intros Hr. subst s'. rewrite (update_no_rebind prev q s.1 s.2 Hk Hd Hr).
    repeat split.
  - intros Hr. exists t0, (resolve_target (ref_of q) s.2).
    split; [exact Hc |]. subst s'.
    rewrite (update_rebind prev q s.1 s.2 Hk Hd Hlt Hr). simpl.
    rewrite Hc. simpl. rewrite <- app_assoc. reflexivity.
  - split.
    + intros He. rewrite Hm', Hm in He. injection He as _ He _ _. congruence.
    + intros Hkey. destruct (rebinds prev q) eqn:Hr; subst s'.
      * rewrite (update_rebind prev q s.1 s.2 Hk Hd Hlt Hr). simpl.
        unfold handler_after. destruct (decide _); [reflexivity | contradiction].
      * rewrite (update_no_rebind prev q s.1 s.2 Hk Hd Hr). reflexivity.
  - rewrite Hm'. simpl. exact Hpc'.
  - rewrite Hm'. reflexivity.
  - rewrite Hm'. reflexivity.
  - subst captured. rewrite capture_props_snoc. rewrite Hpc. reflexivity.
  - intros Hw.
    pose proof (subscribed_run p w (acts ++ [rerender q]) Hw) as [Hb Hl].
    rewrite run_snoc in Hb, Hl. fold s s' in Hb, Hl.
    rewrite Hc' in Hl. simpl in Hl.
    exists t1. split; [exact Hl |].
    intros H0 e He. rewrite Hl, H0. simpl app.
    apply (dispatchEvent_single (mkReg t1 (event_of q) (memo_fn s'.1)) e).
    simpl. congruence.
Qed.

Lemma rebinding_policy_witness :
  dom_calls (run (props_enter 5) world0 [rerender (props_enter 6)]).2
    = dom_calls (mount (props_enter 5) world0).2
  /\ cap_listener (memo_fn (run (props_enter 5) world0 [rerender (props_enter 6)]).1) = 5
  /\ cap_listener (memo_fn (run (props_enter 5) world0 [rerender (props_escape 6)]).1) = 6.
Proof.
  pose proof (rebinding_policy (props_enter 5) world0 [] (props_enter 6))
    as (H1 & _ & _ & _ & H5 & _).
  pose proof (rebinding_policy (props_enter 5) world0 [] (props_escape 6))
    as (_ & _ & _ & _ & H5' & _).
  split; [apply (H1 eq_refl) |]. split; [exact H5 | exact H5'].
Defined.

(** * Further properties of [useKeyboard] *)

(** ** Renders that change nothing the effect depends on *)

Lemma quiet_foldl (p : Props) (acts : list Action) :
  forall s : Fiber * World,
    memo_deps s.1 = p_key p ->
    effect_deps s.1 = (event_of p, fn_id (memo_fn s.1), ref_of p) ->
    forallb (quiet p) acts = true ->
    (foldl (fun s a => step a s) s acts).1 = s.1
    /\ dom_calls (foldl (fun s a => step a s) s acts).2 = dom_calls s.2
    /\ listeners (foldl (fun s a => step a s) s acts).2 = listeners s.2.
Proof.
  induction acts as [| a acts IH]; intros [f w] Hk Hd H.
  - repeat split.
  - simpl in H, Hk, Hd. apply andb_prop in H as [Ha H].
    assert (Hstep : (step a (f, w)).1 = f
                    /\ dom_calls (step a (f, w)).2 = dom_calls w
                    /\ listeners (step a (f, w)).2 = listeners w).
    { destruct a as [q | r n]; simpl in *; [| repeat split].
      apply negb_true_iff in Ha.
      rewrite (update_no_rebind p q f w Hk Hd Ha). repeat split. }
    destruct Hstep as (H1 & H2 & H3).
    change (foldl (fun s a => step a s) (f, w) (a :: acts))
      with (foldl (fun s a => step a s) (step a (f, w)) acts).
    destruct (IH (step a (f, w))) as (I1 & I2 & I3); rewrite ?H1; try assumption.
    rewrite I1, I2, I3, H1, H2, H3. repeat split.
Qed.

(** X1. However many renders pass the same [key], [event] and ref object
    (whatever listener or [preventDefault] they pass), and whatever is
    written to ref cells in between, the hook makes no DOM call after the
    [addEventListener] of the mount: the one subscription stays on the
    target resolved at mount, with the function created at mount, even
    when the ref cell holds another node by now. *)
Theorem quiet_renders_leave_subscription
    (p : Props) (w : World) (acts : list Action) :
  forallb (quiet p) acts = true ->
  let s := run p w acts in
  s.1 = (mount p w).1
  /\ dom_calls s.2 =
       dom_calls w ++ [call_add (resolve_target (ref_of p) w) (event_of p) (next_fn w)]
  /\ listeners s.2 = listeners (mount p w).2
  /\ cleanup s.1 =
       (resolve_target (ref_of p) w, event_of p,
        mkClosure (next_fn w) (p_key p) (preventDefault_of p) (p_listener p)).
Proof.
  intros H s. subst s. unfold run.
  destruct (quiet_foldl p acts (mount p w)) as (H1 & H2 & H3);
    try exact H; try (rewrite mount_eq; reflexivity).
  rewrite H1, H2, H3, mount_eq. repeat split.
Qed.

Lemma quiet_renders_leave_subscription_witness :
  dom_calls
    (run (props_ref 5 7) world_ref
       [rerender (props_ref 6 7); set_current 7 (Some 2); rerender (props_ref 8 7)]).2
    = [call_add (element 1) keyup 0]
  /\ resolve_target (Some 7)
       (run (props_ref 5 7) world_ref
          [rerender (props_ref 6 7); set_current 7 (Some 2); rerender (props_ref 8 7)]).2
     = element 2.
Proof.
  split; [| reflexivity].
  destruct (quiet_renders_leave_subscription (props_ref 5 7) world_ref
              [rerender (props_ref 6 7); set_current 7 (Some 2); rerender (props_ref 8 7)]
              eq_refl) as (_ & H & _).
  exact H.
Defined.

Lemma useKeyboard_explicit
    (k : TKeyboardKey) (listener : ListenerId) (options : option IKeyboardOptions)
    (prev : option Fiber) (w : World) :
  useKeyboard k listener (Some (explicit_options options)) prev w
    = useKeyboard k listener options prev w.
Proof.
  unfold useKeyboard.
  destruct options as [[[ev |] [pd |] rf] |]; reflexivity.
Qed.

(** X2. Leaving an option out is the same as passing its default, option
    by option: a missing [event] subscribes ["keydown"], a missing
    [preventDefault] gives a handler that prevents the default, a missing
    [ref] (or no options at all) subscribes on [document]. Over a whole
    life, writing the defaults out at the mount and at every render
    changes nothing: same cells, same DOM calls, same listener table. *)
Theorem omitted_options_are_defaults
    (k : TKeyboardKey) (listener : ListenerId) (w : World) :
  (forall ev pd rf,
      let s := mount (mkProps k listener (Some (mkOptions ev pd rf))) w in
      dom_calls s.2 =
        dom_calls w ++
          [call_add (resolve_target rf w)
             (match ev with Some x => x | None => keydown end) (next_fn w)]
      /\ cap_preventDefault (memo_fn s.1)
         = match pd with Some b => b | None => true end)
  /\ (let s := mount (mkProps k listener None) w in
      dom_calls s.2 = dom_calls w ++ [call_add document keydown (next_fn w)]
      /\ cap_preventDefault (memo_fn s.1) = true)
  /\ (forall p acts,
         run (explicit_props p) w (explicit_action <$> acts) = run p w acts).
Proof.
  split; [| split].
  - intros ev pd rf s. subst s. rewrite mount_eq. simpl.
    destruct ev, pd; split; reflexivity.
  - rewrite mount_eq. split; reflexivity.
  - intros p acts. unfold run.
    assert (H0 : mount (explicit_props p) w = mount p w)
      by apply useKeyboard_explicit.
    rewrite H0. generalize (mount p w) as s.
    induction acts as [| a acts IH]; intros s; [reflexivity |].
    simpl. rewrite <- IH. f_equal.
    destruct s as [f w1], a as [q | r n]; [| reflexivity].
    apply useKeyboard_explicit.
Qed.

(** ** Which events reach the listener *)

Lemma fired_fields (h : Closure) (e : KeyboardEvent) :
  type (fired h e) = type e /\ key (fired h e) = key e.
Proof. unfold fired. destruct (cap_preventDefault h); split; reflexivity. Qed.

Lemma fired_twice (h : Closure) (e : KeyboardEvent) :
  fired h (fired h e) = fired h e.
Proof.
  unfold fired. destruct (cap_preventDefault h); [| reflexivity].
  destruct e as [ty ky [|] d]; reflexivity.
Qed.

Lemma deliver_single_hit (r : Registration) (e : KeyboardEvent) :
  reg_type r = type e ->
  key e = key_string (cap_key (reg_handler r)) ->
  deliver [r] (reg_target r) e =
    (fired (reg_handler r) e, [called (cap_listener (reg_handler r)) (fired (reg_handler r) e)]).
Proof.
  intros Hty Hk. simpl.
  rewrite (bool_decide_eq_true_2 _ eq_refl), (bool_decide_eq_true_2 _ Hty). simpl.
  rewrite (eventHandler_match _ _ Hk). reflexivity.
Qed.

Lemma deliver_single_miss (r : Registration) (t : EventTarget) (e : KeyboardEvent) :
  reg_target r <> t \/ reg_type r <> type e
  \/ key e <> key_string (cap_key (reg_handler r)) ->
  deliver [r] t e = (e, []).
Proof.
  intros H. simpl.
  destruct (bool_decide (reg_target r = t)) eqn:Et;
    destruct (bool_decide (reg_type r = type e)) eqn:Ety; simpl; try reflexivity.
  apply bool_decide_eq_true_1 in Et, Ety.
  destruct H as [H | [H | H]]; try contradiction.
  rewrite (eventHandler_other _ _ H). reflexivity.
Qed.

Lemma live_registration (p : Props) (w : World) (acts : list Action) :
  listeners w = [] ->
  exists target fn,
    cleanup (run p w acts).1 =
      (target, event_of (last_props p acts),
       mkClosure fn (p_key (last_props p acts))
         (preventDefault_of (capture_props p acts)) (p_listener (capture_props p acts)))
    /\ listeners (run p w acts).2 =
         [mkReg target (event_of (last_props p acts))
            (mkClosure fn (p_key (last_props p acts))
               (preventDefault_of (capture_props p acts))
               (p_listener (capture_props p acts)))].
Proof.
  intros H0.
  assert (Hw : fresh_ids w) by (unfold fresh_ids; rewrite H0; constructor).
  destruct (bound_run p w acts)
    as (target & done & Hc & _ & _ & Hpc & Hm & _ & _ & _).
  destruct (subscribed_run p w acts Hw) as [_ Hl].
  exists target, (fn_id (memo_fn (run p w acts).1)).
  rewrite Hl, H0, Hc. simpl. rewrite <- Hpc, <- Hm. split; reflexivity.
Qed.

(** X3. With no other listener around, an event reaches the caller's
    listener only if its type is the [event] of the latest render, its
    [key] is the [key] of the latest render and its propagation path
    visits the target of the live subscription. In every other case the
    dispatch calls nothing and hands the event back as it was, so its
    default action is not prevented. *)
Theorem fires_only_on_matching_event
    (p : Props) (w : World) (acts : list Action)
    (path : list EventTarget) (e : KeyboardEvent) :
  listeners w = [] ->
  let s := run p w acts in
  type e <> event_of (last_props p acts)
  \/ key e <> key_string (p_key (last_props p acts))
  \/ (cleanup s.1).1.1 ∉ path ->
  dispatchEvent (listeners s.2) path e = (e, []).
Proof.
  intros H0 s H. subst s.
  destruct (live_registration p w acts H0) as (target & fn & Hc & Hl).
  rewrite Hl. rewrite Hc in H. simpl in H. clear Hc Hl.
  induction path as [| t path IH]; [reflexivity |].
  cbn [dispatchEvent].
  rewrite deliver_single_miss.
  - rewrite IH; [reflexivity |].
    destruct H as [H | [H | H]]; [tauto | tauto |].
    right; right. intros Hin. apply H. right. exact Hin.
  - simpl. destruct H as [H | [H | H]].
    + right; left. congruence.
    + right; right. exact H.
    + left. intros ->. apply H. left.
Qed.

Lemma fires_only_on_matching_event_witness :
  dispatchEvent
    (listeners (run (props_ref 5 7) world_ref [rerender (props_escape 5)]).2)
    [element 1; document] enter_down
  = (enter_down, []).
Proof.
  apply (fires_only_on_matching_event (props_ref 5 7) world_ref
           [rerender (props_escape 5)] [element 1; document] enter_down eq_refl).
  right; left. discriminate.
Defined.

Lemma dispatch_single_count (r : Registration) (path : list EventTarget) :
  forall e : KeyboardEvent,
    reg_type r = type e ->
    key e = key_string (cap_key (reg_handler r)) ->
    dispatchEvent [r] path e =
      (if decide (count_occ EventTarget_eq_dec path (reg_target r) = 0)
       then e else fired (reg_handler r) e,
       repeat (called (cap_listener (reg_handler r)) (fired (reg_handler r) e))
         (count_occ EventTarget_eq_dec path (reg_target r))).
Proof.
  induction path as [| t path IH]; intros e Hty Hk; [reflexivity |].
  cbn [dispatchEvent count_occ].
  destruct (EventTarget_eq_dec t (reg_target r)) as [-> | Hne].
  - rewrite (deliver_single_hit r e Hty Hk).
    destruct (fired_fields (reg_handler r) e) as [Ft Fk].
    rewrite IH by congruence. rewrite fired_twice.
    destruct (decide (S _ = 0)) as [Hz | _]; [discriminate Hz |].
    destruct (decide (_ = 0)); reflexivity.
  - rewrite deliver_single_miss by (left; congruence).
    rewrite IH by assumption. reflexivity.
Qed.

(** X4. With no other listener around, an event of the subscribed type
    and key calls the listener once for every visit its propagation path
    pays to the subscribed target, and each call receives the same event:
    the dispatched one, on which [preventDefault] has been called when the
    handler's [preventDefault] is on, so that its flag is set if the event
    is cancelable and is as dispatched if it is not. The listener and the
    option are those captured by the memoised function. *)
Theorem fires_once_per_visit
    (p : Props) (w : World) (acts : list Action)
    (path : list EventTarget) (e : KeyboardEvent) :
  listeners w = [] ->
  type e = event_of (last_props p acts) ->
  key e = key_string (p_key (last_props p acts)) ->
  let s := run p w acts in
  let n := count_occ EventTarget_eq_dec path (cleanup s.1).1.1 in
  let seen := fired (memo_fn s.1) e in
  dispatchEvent (listeners s.2) path e =
    (if decide (n = 0) then e else seen,
     repeat (called (p_listener (capture_props p acts)) seen) n)
  /\ defaultPrevented seen =
       (preventDefault_of (capture_props p acts) && cancelable e || defaultPrevented e)
  /\ type seen = type e /\ key seen = key e /\ cancelable seen = cancelable e.
Proof.
  intros H0 Hty Hk s n seen. subst s n seen.
  destruct (live_registration p w acts H0) as (target & fn & Hc & Hl).
  destruct (bound_run p w acts) as (t0 & done & Hc0 & _ & _ & Hpc & Hm & _).
  rewrite Hc in Hc0. injection Hc0 as _ Hmemo. rewrite <- Hmemo.
  rewrite Hl, Hc. simpl. split.
  - rewrite dispatch_single_count by (simpl; congruence). reflexivity.
  - unfold fired. simpl.
    destruct (preventDefault_of _), e as [ty ky [|] d]; repeat split.
Qed.

Lemma fires_once_per_visit_witness :
  dispatchEvent
    (listeners (run (props_enter 5) world0 [rerender (props_enter 6)]).2)
    [element 3; document] enter_down
  = (mkEvent keydown "Enter" true true, [called 5 (mkEvent keydown "Enter" true true)]).
Proof.
  destruct (fires_once_per_visit (props_enter 5) world0 [rerender (props_enter 6)]
              [element 3; document] enter_down eq_refl eq_refl eq_refl) as [H _].
  exact H.
Defined.

(** ** What a dispatch can do to the event *)

Lemma eventHandler_effect (h : Closure) (e : KeyboardEvent) :
  type (eventHandler h e).1 = type e
  /\ key (eventHandler h e).1 = key e
  /\ (defaultPrevented e = true -> defaultPrevented (eventHandler h e).1 = true)
  /\ (defaultPrevented (eventHandler h e).1 = true ->
      defaultPrevented e = true \/ (eventHandler h e).2 <> [])
  /\ Forall (fun c => type (call_event c) = type e /\ key (call_event c) = key e)
       (eventHandler h e).2.
Proof.
  unfold eventHandler. destruct (String.eqb _ _); simpl.
  - destruct (cap_preventDefault h); simpl; repeat split; auto.
    intros Hd. destruct (cancelable e); [reflexivity | exact Hd].
  - repeat split; auto.
Qed.

Lemma deliver_effect (rs : list Registration) (t : EventTarget) :
  forall e : KeyboardEvent,
    type (deliver rs t e).1 = type e
    /\ key (deliver rs t e).1 = key e
    /\ (defaultPrevented e = true -> defaultPrevented (deliver rs t e).1 = true)
    /\ (defaultPrevented (deliver rs t e).1 = true ->
        defaultPrevented e = true \/ (deliver rs t e).2 <> [])
    /\ Forall (fun c => type (call_event c) = type e /\ key (call_event c) = key e)
         (deliver rs t e).2.
Proof.
  induction rs as [| r rs IH]; intros e; simpl.
  - repeat split; auto.
  - destruct (_ && _); [| apply IH].
    pose proof (eventHandler_effect (reg_handler r) e) as (H1 & H2 & H3 & H4 & H5).
    destruct (eventHandler (reg_handler r) e) as [e1 c1]. simpl in *.
    pose proof (IH e1) as (I1 & I2 & I3 & I4 & I5).
    destruct (deliver rs t e1) as [e2 c2]. simpl in *.
    repeat split; try congruence; auto.
    + intros Hp. destruct (I4 Hp) as [Hp1 | Hc2].
      * destruct (H4 Hp1) as [? | Hc1]; [left; assumption | right].
        destruct c1; [contradiction | discriminate].
      * right. destruct c1; [exact Hc2 | discriminate].
    + apply Forall_app. split; [exact H5 |].
      eapply Forall_impl; [exact I5 |]. simpl. intros c [? ?]. split; congruence.
Qed.

(** X5. Whatever handlers of this hook are registered and whatever path
    an event takes, a dispatch never changes the event's type or key,
    never clears a default-prevented flag that was set, sets the flag only
    when it also calls a listener, and passes every listener an event
    with the dispatched type and key. *)
Theorem dispatch_only_sets_the_flag
    (rs : list Registration) (path : list EventTarget) (e : KeyboardEvent) :
  let out := dispatchEvent rs path e in
  type out.1 = type e
  /\ key out.1 = key e
  /\ (defaultPrevented e = true -> defaultPrevented out.1 = true)
  /\ (defaultPrevented out.1 = true -> defaultPrevented e = true \/ out.2 <> [])
  /\ Forall (fun c => type (call_event c) = type e /\ key (call_event c) = key e) out.2.
Proof.
  revert e. induction path as [| t path IH]; intros e; simpl.
  - repeat split; auto.
  - pose proof (deliver_effect rs t e) as (H1 & H2 & H3 & H4 & H5).
    destruct (deliver rs t e) as [e1 c1]. simpl in *.
    pose proof (IH e1) as (I1 & I2 & I3 & I4 & I5).
    destruct (dispatchEvent rs path e1) as [e2 c2]. simpl in *.
    repeat split; try congruence; auto.
    + intros Hp. destruct (I4 Hp) as [Hp1 | Hc2].
      * destruct (H4 Hp1) as [? | Hc1]; [left; assumption | right].
        destruct c1; [contradiction | discriminate].
      * right. destruct c1; [exact Hc2 | discriminate].
    + apply Forall_app. split; [exact H5 |].
      eapply Forall_impl; [exact I5 |]. simpl. intros c [? ?]. split; congruence.
Qed.

Lemma dispatch_only_sets_the_flag_witness :
  defaultPrevented
    (dispatchEvent (listeners (mount (props_ref 5 7) world_ref).2)
       [element 1; document] (mkEvent keyup "Enter" true true)).1 = true.
Proof.
  destruct (dispatch_only_sets_the_flag (listeners (mount (props_ref 5 7) world_ref).2)
              [element 1; document] (mkEvent keyup "Enter" true true)) as (_ & _ & H & _).
  apply H. reflexivity.
Defined.

(** ** Two instances side by side *)

Lemma fresh_ids_mount (p : Props) (w : World) :
  fresh_ids w -> fresh_ids (mount p w).2.
Proof.
  intros Hw. unfold fresh_ids in *. rewrite mount_eq. simpl.
  rewrite existsb_same_listener_fresh by exact Hw.
  apply Forall_app. split.
  - eapply Forall_impl; [exact Hw |]. simpl. intros r Hr. lia.
  - constructor; [simpl; lia | constructor].
Qed.

(** X6. A second instance mounted after a first one gets its own
    registration behind the first one's, and keeps it through its own
    renders; unmounting the first instance removes the first registration
    only, and unmounting both, in either order, leaves the listener table
    as it was before the two mounts. *)
Theorem instances_do_not_interfere
    (p1 p2 : Props) (w : World) (acts : list Action) :
  fresh_ids w ->
  let s1 := mount p1 w in
  let s2 := run p2 s1.2 acts in
  let reg1 := mkReg (cleanup s1.1).1.1 (cleanup s1.1).1.2 (cleanup s1.1).2 in
  let reg2 := mkReg (cleanup s2.1).1.1 (cleanup s2.1).1.2 (cleanup s2.1).2 in
  fn_id (reg_handler reg1) <> fn_id (reg_handler reg2)
  /\ listeners s2.2 = listeners w ++ [reg1; reg2]
  /\ listeners (unmount s1.1 s2.2) = listeners w ++ [reg2]
  /\ listeners (unmount s2.1 s2.2) = listeners w ++ [reg1]
  /\ listeners (unmount s2.1 (unmount s1.1 s2.2)) = listeners w
  /\ listeners (unmount s1.1 (unmount s2.1 s2.2)) = listeners w.
Proof.
  intros Hw s1 s2 reg1 reg2.
  pose proof (fresh_ids_mount p1 w Hw) as Hw1. fold s1 in Hw1.
  destruct (subscribed_run p2 s1.2 acts Hw1) as [Hb2 Hl2]. fold s2 in Hb2, Hl2.
  destruct (subscribed_mount p1 w Hw) as [Hb1 Hl1]. fold s1 in Hb1, Hl1.
  destruct (bound_mount p1 w) as (t1 & d1 & Hc1 & _ & _ & _ & _ & _). fold s1 in Hc1.
  destruct (bound_run p2 s1.2 acts) as (t2 & d2 & Hc2 & _ & _ & _ & _ & _).
  fold s2 in Hc2.
  fold reg1 in Hl1. fold reg2 in Hl2. rewrite Hl1 in Hl2, Hb2.
  apply Forall_app in Hb2 as [Hb2 Hlt]. apply Forall_inv in Hlt.
  assert (Hr1 : reg1 = mkReg t1 (event_of p1) (memo_fn s1.1))
    by (subst reg1; rewrite Hc1; reflexivity).
  assert (Hr2 : reg2 = mkReg t2 (event_of (last_props p2 acts)) (memo_fn s2.1))
    by (subst reg2; rewrite Hc2; reflexivity).
  clearbody reg1 reg2. clearbody s1 s2.
  rewrite Hr1 in Hlt. simpl in Hlt.
  assert (Hne : fn_id (reg_handler reg1) <> fn_id (reg_handler reg2)).
  { rewrite Hr1, Hr2. simpl. lia. }
  assert (Hkeep2 : same_listener t1 (event_of p1) (fn_id (memo_fn s1.1)) reg2 = false).
  { unfold same_listener. rewrite Hr2. simpl.
    rewrite (bool_decide_eq_false_2 (fn_id (memo_fn s2.1) = fn_id (memo_fn s1.1))) by lia.
    apply andb_false_r. }
  assert (Hdrop1 : same_listener t1 (event_of p1) (fn_id (memo_fn s1.1)) reg1 = true).
  { unfold same_listener. rewrite Hr1. simpl.
    rewrite !bool_decide_eq_true_2 by reflexivity. reflexivity. }
  assert (Hu1 : listeners (unmount s1.1 s2.2) = listeners w ++ [reg2]).
  { unfold unmount. rewrite Hc1. simpl. rewrite Hl2, <- app_assoc.
    rewrite List.filter_app, filter_other_listeners by exact Hb1.
    simpl. rewrite Hdrop1, Hkeep2. reflexivity. }
  assert (Hu2 : listeners (unmount s2.1 s2.2) = listeners w ++ [reg1]).
  { unfold unmount. rewrite Hc2.
    apply (remove_own_listener t2 _ (memo_fn s2.1) (listeners w ++ [reg1]) s2.2).
    - apply Forall_app. split; [exact Hb2 |]. constructor; [| constructor].
      rewrite Hr1. simpl. exact Hlt.
    - rewrite Hl2, Hr2, <- app_assoc. reflexivity. }
  split; [exact Hne |].
  split; [rewrite Hl2, <- app_assoc; reflexivity |].
  split; [exact Hu1 |]. split; [exact Hu2 |]. split.
  - unfold unmount at 1. rewrite Hc2.
    apply (remove_own_listener t2 _ (memo_fn s2.1) (listeners w) (unmount s1.1 s2.2)).
    + exact Hb2.
    + rewrite Hu1, Hr2. reflexivity.
  - unfold unmount at 1. rewrite Hc1.
    apply (remove_own_listener t1 _ (memo_fn s1.1) (listeners w) (unmount s2.1 s2.2)).
    + exact Hb1.
    + rewrite Hu2, Hr1. reflexivity.
Qed.

Lemma instances_do_not_interfere_witness :
  listeners
    (unmount (mount (props_enter 5) world0).1
       (run (props_enter 6) (mount (props_enter 5) world0).2
          [rerender (props_escape 6)]).2)
  = [mkReg document keydown (mkClosure 2 Escape true 6)].
Proof.
  assert (H0 : fresh_ids world0) by constructor.
  destruct (instances_do_not_interfere (props_enter 5) (props_enter 6) world0
              [rerender (props_escape 6)] H0) as (_ & _ & H & _).
  exact H.
Defined.

(** ** Moving the subscription *)

(** X9. With no other listener around, after a render that rebinds (it
    changes [key], [event] or the ref object) the subscription sits on the
    target resolved from the new ref at that moment and nowhere else: a
    matching event dispatched at any other target calls nothing, and the
    same event dispatched at the new target calls the listener once. *)
Theorem rebind_moves_subscription
    (p : Props) (w : World) (acts : list Action) (q : Props)
    (other : EventTarget) (e : KeyboardEvent) :
  listeners w = [] ->
  rebinds (last_props p acts) q = true ->
  type e = event_of q ->
  key e = key_string (p_key q) ->
  let s := run p w acts in
  let s' := update q s.1 s.2 in
  let target := resolve_target (ref_of q) s.2 in
  other <> target ->
  dispatchEvent (listeners s'.2) [other] e = (e, [])
  /\ dispatchEvent (listeners s'.2) [target] e =
       (fired (memo_fn s'.1) e,
        [called (p_listener (capture_props p (acts ++ [rerender q])))
           (fired (memo_fn s'.1) e)]).
Proof.
  intros H0 Hr Hty Hk s s' target Hne.
  destruct (bound_run p w acts) as (t0 & done & Hc & Hd & Hkd & _ & _ & Hlt & _).
  fold s in Hc, Hd, Hkd, Hlt.
  assert (Hup := update_rebind _ q s.1 s.2 Hkd Hd Hlt Hr).
  fold s' in Hup. fold target in Hup.
  destruct (live_registration p w (acts ++ [rerender q]) H0) as (t1 & fn & Hc' & Hl').
  rewrite run_snoc, last_props_snoc in Hc', Hl'. fold s s' in Hc', Hl'.
  assert (Ht : t1 = target).
  { rewrite Hup in Hc'. simpl in Hc'. congruence. }
  assert (Hm : memo_fn s'.1 =
               mkClosure fn (p_key q)
                 (preventDefault_of (capture_props p (acts ++ [rerender q])))
                 (p_listener (capture_props p (acts ++ [rerender q])))).
  { rewrite Hup in Hc'. rewrite Hup. simpl in *. congruence. }
  subst t1. rewrite Hl', Hm. split.
  - cbn [dispatchEvent]. rewrite deliver_single_miss; [reflexivity |].
    left. simpl. congruence.
  - set (r := mkReg target (event_of q) _).
    change target with (reg_target r) at 1.
    rewrite (dispatch_single_count r [reg_target r] e) by (simpl; congruence).
    simpl. destruct (EventTarget_eq_dec target target) as [_ | Hc0]; [| contradiction].
    reflexivity.
Qed.

Lemma rebind_moves_subscription_witness :
  dispatchEvent
    (listeners (run (props_ref 5 7) world_ref [rerender (props_ref 5 8)]).2)
    [element 1] (mkEvent keyup "Enter" true false)
  = (mkEvent keyup "Enter" true false, [])
  /\ dispatchEvent
       (listeners (run (props_ref 5 7) world_ref [rerender (props_ref 5 8)]).2)
       [document] (mkEvent keyup "Enter" true false)
     = (mkEvent keyup "Enter" true false, [called 5 (mkEvent keyup "Enter" true false)]).
Proof.
  assert (Hne : element 1 <> document) by discriminate.
  exact (rebind_moves_subscription (props_ref 5 7) world_ref [] (props_ref 5 8)
           (element 1) (mkEvent keyup "Enter" true false)
           eq_refl eq_refl eq_refl eq_refl Hne).
Defined.

End KeyboardFacts.
